(** * edraw: the path and geometry engine of the Inkscape-to-ely exporter

    A shallow embedding of [edraw.py] and the properties its design
    document states about it.

    Conventions of the embedding.
    - Python [float] and [complex] values are exact rationals ([Q]) and pairs
      of rationals: the development speaks about the arithmetic the program
      denotes, not about binary64 rounding.  Where the program prints the
      sign of a zero (the direction of a path), the numbers are [float64]
      values, which tell the negative zero apart.
    - A Python exception is a value of [Py.exn]; a function that can raise
      returns [Py.result].  The body of [effect] additionally threads the
      local variable [closed] and the messages sent to [inkex.errormsg].
    - An XML element is its attribute dictionary ([gmap string string]);
      the queries [findall]/[xpath] of a layer are fields holding the
      elements they return, in document order.
    - Host integration ([add_arguments], [get_grid], [get_size],
      [create_ely_tree], the final [write]) is outside the embedding. *)

From Stdlib Require Import ZArith QArith Qround Qabs Reals String Ascii List Lia.
From Stdlib Require Import DecimalString HexadecimalString Qreals.
From Stdlib Require Lqa Lra.
From stdpp Require Import base option list strings gmap.
Import ListNotations.

(** ** Python runtime: exceptions, numbers, strings *)

Module Py.

Inductive exn : Type :=
| AttributeError (msg : string)
| KeyError (key : string)
| IndexError
| UnboundLocalError (var : string)
| ZeroDivisionError
| ValueError (msg : string).

Inductive result (A : Type) : Type :=
| Ok (a : A)
| Raise (e : exn).
Arguments Ok {A} a.
Arguments Raise {A} e.

#[global] Instance result_ret : MRet result := @Ok.
#[global] Instance result_bind : MBind result :=
  fun A B f m => match m with Ok a => f a | Raise e => Raise e end.
#[global] Instance result_fmap : FMap result :=
  fun A B f m => match m with Ok a => Ok (f a) | Raise e => Raise e end.

(** [for x in xs: ys.append(f(x))], stopping at the first exception. *)
Fixpoint for_each {A B} (f : A -> result B) (xs : list A) : result (list B) :=
  match xs with
  | [] => Ok []
  | x :: xs' => y ← f x; ys ← for_each f xs'; Ok (y :: ys)
  end.

(** [d[k]] on a dictionary. *)
Definition getitem (d : gmap string string) (k : string) : result string :=
  match d !! k with
  | Some v => Ok v
  | None => Raise (KeyError k)
  end.

(** [l[i]] on a list, for the non-negative indices the program uses. *)
Definition index {A} (l : list A) (i : nat) : result A :=
  match l !! i with
  | Some v => Ok v
  | None => Raise IndexError
  end.

(** A number held in a Python list: an [int] or a [float]. *)
Inductive num : Type :=
| PyInt (z : Z)
| PyFloat (q : Q).

(** [int(x)] on a float truncates toward zero. *)
Definition int_of_float (q : Q) : Z := Z.quot (Qnum q) (Zpos (Qden q)).

(** [int(v * 100)]. *)
Definition int_times_100 (v : num) : Z :=
  match v with
  | PyInt z => z * 100
  | PyFloat q => int_of_float (q * 100)
  end.

(** ['{:02x}'.format(v)]: lower-case hexadecimal, zero-padded to width two
    (the sign counts for the width); a float has no format code [x]. *)
Definition hex (n : Z) : string :=
  HexadecimalString.NilZero.string_of_uint (N.to_hex_uint (Z.to_N n)).

Definition format_02x_int (z : Z) : string :=
  if (z <? 0)%Z then "-" +:+ hex (- z)
  else if (z <? 16)%Z then "0" +:+ hex z
  else hex z.

Definition format_02x (v : num) : result string :=
  match v with
  | PyInt z => Ok (format_02x_int z)
  | PyFloat _ => Raise (ValueError "Unknown format code 'x' for object of type 'float'")
  end.

(** [int(s, 16)] for the strings the program passes: an optional sign
    followed by at least one hexadecimal digit of either case. *)
Definition hex_digit_val (c : ascii) : option Z :=
  let n := Z.of_N (N_of_ascii c) in
  if ((48 <=? n) && (n <=? 57))%Z then Some (n - 48)%Z
  else if ((97 <=? n) && (n <=? 102))%Z then Some (n - 87)%Z
  else if ((65 <=? n) && (n <=? 70))%Z then Some (n - 55)%Z
  else None.

Fixpoint hex_digits_val (acc : Z) (s : string) : option Z :=
  match s with
  | EmptyString => Some acc
  | String c s' =>
      match hex_digit_val c with
      | Some d => hex_digits_val (16 * acc + d) s'
      | None => None
      end
  end.

Definition invalid_literal : exn := ValueError "invalid literal for int() with base 16".

Definition unsigned_int16 (s : string) : result Z :=
  match s with
  | EmptyString => Raise invalid_literal
  | _ => match hex_digits_val 0 s with
         | Some z => Ok z
         | None => Raise invalid_literal
         end
  end.

Definition int16 (s : string) : result Z :=
  match s with
  | String "-" s' => z ← unsigned_int16 s'; Ok (- z)%Z
  | String "+" s' => unsigned_int16 s'
  | _ => unsigned_int16 s
  end.

(** Slices [s[:n]] and [s[-n:]]. *)
Definition slice_to (n : nat) (s : string) : string := substring 0 n s.
Definition slice_last (n : nat) (s : string) : string :=
  substring (String.length s - n) n s.

(** [sep.join(xs)]. *)
Fixpoint join (sep : string) (xs : list string) : string :=
  match xs with
  | [] => ""
  | [x] => x
  | x :: xs' => x +:+ sep +:+ join sep xs'
  end.

(** Rounding to the nearest integer, ties to even: the rounding of the
    fixed-point format codes. *)
Definition round_half_even (q : Q) : Z :=
  let f := Qfloor q in
  match Qcompare (q - inject_Z f) (1 # 2) with
  | Lt => f
  | Gt => (f + 1)%Z
  | Eq => if Z.even f then f else (f + 1)%Z
  end.

Definition decimal (n : Z) : string :=
  DecimalString.NilZero.string_of_uint (N.to_uint (Z.to_N n)).

Fixpoint zeros (k : nat) : string :=
  match k with O => "" | S k' => String "0" (zeros k') end.

Definition zero_pad (width : nat) (s : string) : string :=
  zeros (width - String.length s) +:+ s.

(** ['{:.<d>f}'.format(q)] for [d >= 1]: sign, integer part, point and
    exactly [d] decimals of the value rounded to [d] decimals. *)
Definition format_fixed (d : nat) (q : Q) : string :=
  let scale := (10 ^ Z.of_nat d)%Z in
  let m := round_half_even (Qabs q * inject_Z scale) in
  (if Qlt_le_dec q 0 then "-" else "")
    +:+ decimal (m / scale) +:+ "." +:+ zero_pad d (decimal (m mod scale)).

(** A binary64 number where the sign of zero is observable: its exact
    value, or the negative zero.  [Finite q] with [q == 0] is the positive
    zero. *)
Inductive float64 : Type :=
| Finite (q : Q)
| NegZero.

Definition value (x : float64) : Q :=
  match x with Finite q => q | NegZero => 0 end.

Definition sign_bit (x : float64) : bool :=
  match x with
  | Finite q => if Qlt_le_dec q 0 then true else false
  | NegZero => true
  end.

Definition signed_zero (negative : bool) : float64 :=
  if negative then NegZero else Finite 0.

(** [x - y]: a difference that is zero is the positive zero, except for
    [(-0.0) - (+0.0)], which is the negative zero. *)
Definition fsub (x y : float64) : float64 :=
  let v := (value x - value y)%Q in
  if Qeq_bool v 0 then
    match x, y with
    | NegZero, Finite _ => NegZero
    | _, _ => Finite 0
    end
  else Finite v.

(** [x / y] for [y != 0]: a zero quotient carries the exclusive or of the
    two sign bits. *)
Definition fdiv (x y : float64) : float64 :=
  if Qeq_bool (value x) 0 then signed_zero (xorb (sign_bit x) (sign_bit y))
  else Finite (value x / value y).

(** [float(s)] for the text [s] printed by [format_fixed d] for [q]: the
    rounded value with the printed sign, so [-0.000000] reads as the
    negative zero. *)
Definition read_fixed (d : nat) (q : Q) : float64 :=
  let scale := (10 ^ Z.of_nat d)%Z in
  let m := round_half_even (Qabs q * inject_Z scale) in
  if Qlt_le_dec q 0 then
    if (m =? 0)%Z then NegZero else Finite (- (inject_Z m / inject_Z scale))
  else Finite (inject_Z m / inject_Z scale).

End Py.
Export Py.

(** ** numpy: the three functions the program calls *)

Module np.

(** [arange(0, num)] as floats. *)
Definition arange (num : nat) : list Q :=
  (fun k => inject_Z (Z.of_nat k)) <$> seq 0 num.

(** [y[-1] = v]. *)
Fixpoint set_last (y : list Q) (v : Q) : list Q :=
  match y with
  | [] => []
  | [_] => [v]
  | x :: y' => x :: set_last y' v
  end.

(** [np.linspace(start, stop, num, endpoint=True)], following numpy's
    implementation: [y = arange(num) * step + start] with
    [step = (stop - start) / (num - 1)] (the product is taken the other way
    round when the step is zero), the last sample overwritten with [stop]
    when there is more than one. *)
Definition linspace (start stop : Q) (num : Z) : result (list Q) :=
  if (num <? 0)%Z then Raise (ValueError "Number of samples must be non-negative.")
  else
    let div := (num - 1)%Z in
    let delta := (stop - start)%Q in
    let y := arange (Z.to_nat num) in
    let y :=
      if (0 <? div)%Z then
        let step := (delta / inject_Z div)%Q in
        if Qeq_bool step 0
        then (fun k => (k / inject_Z div * delta)%Q) <$> y
        else (fun k => (k * step)%Q) <$> y
      else (fun k => (k * delta)%Q) <$> y in
    let y := (fun v => (v + start)%Q) <$> y in
    Ok (if (1 <? num)%Z then set_last y stop else y).

(** [np.arctan] and [np.rad2deg] are the real functions on the value; both
    return a float with the sign bit of their argument, also for a zero. *)
Definition arctan (x : Q) : R := atan (Q2R x).
Definition rad2deg (x : R) : R := (x * (180 / PI))%R.

End np.

(** Rounding a real to the nearest integer, ties to even. *)
Definition Rround_half_even (x : R) : Z :=
  let f := Int_part x in
  let r := frac_part x in
  if Rlt_dec r (1 / 2) then f
  else if Rlt_dec (1 / 2) r then (f + 1)%Z
  else if Z.even f then f else (f + 1)%Z.

(** ['{:.0f}'.format(v)] for a float [v] with sign bit [negative] and real
    value [x]: the magnitude rounded to the nearest integer, preceded by
    [-] whenever the sign bit is set (also when what is printed is zero). *)
Definition format_0f (negative : bool) (x : R) : string :=
  (if negative then "-" else "") +:+ decimal (Rround_half_even (Rabs x)).

(** ** Complex numbers *)

Record complex : Type := Complex { real : Q; imag : Q }.

Declare Scope complex_scope.
Delimit Scope complex_scope with C.
Bind Scope complex_scope with complex.

Definition cadd (a b : complex) : complex :=
  Complex (real a + real b) (imag a + imag b).
Definition cneg (a : complex) : complex :=
  Complex (- real a) (- imag a).
Definition csub (a b : complex) : complex :=
  Complex (real a - real b) (imag a - imag b).
(** [k * z] and [z * k] for a real [k]. *)
Definition cscale (k : Q) (z : complex) : complex :=
  Complex (k * real z) (k * imag z).

Infix "+" := cadd : complex_scope.
Infix "-" := csub : complex_scope.
Notation "- a" := (cneg a) : complex_scope.
Notation "k .* z" := (cscale k%Q z) (at level 40, left associativity) : complex_scope.
Notation "z *: k" := (cscale k%Q z) (at level 40) : complex_scope.

(** Componentwise equality of the rationals. *)
Definition ceq (a b : complex) : Prop :=
  (real a == real b)%Q /\ (imag a == imag b)%Q.
Infix "==" := ceq : complex_scope.

(** ** Regular expressions used by the program *)

Module re.

Definition newline : ascii := ascii_of_nat 10.

(** The tail of [(.+?);] once the first character of the group is taken:
    the shortest run of non-newline characters up to the next [;]. *)
Fixpoint lazy_until_semicolon (s : string) : option string :=
  match s with
  | EmptyString => None
  | String c s' =>
      if Ascii.eqb c ";" then Some ""
      else if Ascii.eqb c newline then None
      else String c <$> lazy_until_semicolon s'
  end.

(** The rest of [s] after the literal text [p], when [s] starts with it. *)
Fixpoint literal (p s : string) : option string :=
  match p, s with
  | EmptyString, _ => Some s
  | String a p', String b s' => if Ascii.eqb a b then literal p' s' else None
  | String _ _, EmptyString => None
  end.

(** A match of [fill:(.+?);] anchored at the head of [s]; the result is
    group 1. *)
Definition match_fill_here (s : string) : option string :=
  match literal "fill:" s with
  | Some (String c rest) =>
      if Ascii.eqb c newline then None
      else String c <$> lazy_until_semicolon rest
  | _ => None
  end.

(** [re.search('fill:(.+?);', s)]: the leftmost match, as its group 1. *)
Fixpoint search_fill (s : string) : option string :=
  match match_fill_here s with
  | Some g => Some g
  | None =>
      match s with
      | EmptyString => None
      | String _ s' => search_fill s'
      end
  end.

Definition is_hex (c : ascii) : bool :=
  match hex_digit_val c with Some _ => true | None => false end.

(** [n] hexadecimal digits at the head of [s]. *)
Fixpoint hex_run (n : nat) (s : string) : bool :=
  match n, s with
  | O, _ => true
  | S n', String c s' => is_hex c && hex_run n' s'
  | S _, EmptyString => false
  end.

(** [re.findall(r'#[0-9A-Fa-f]{8}|#[0-9A-Fa-f]{6}', s)]: non-overlapping
    matches from left to right; [skip] counts the characters of the last
    match still to be passed over. *)
Fixpoint findall_colors (skip : nat) (s : string) : list string :=
  match s with
  | EmptyString => []
  | String c s' =>
      match skip with
      | S k => findall_colors k s'
      | O =>
          if Ascii.eqb c "#" && hex_run 8 s' then substring 0 9 s :: findall_colors 8 s'
          else if Ascii.eqb c "#" && hex_run 6 s' then substring 0 7 s :: findall_colors 6 s'
          else findall_colors 0 s'
      end
  end.

End re.

(** [str.upper()] on ASCII text. *)
Definition upper_ascii (c : ascii) : ascii :=
  let n := nat_of_ascii c in
  if (97 <=? n)%nat && (n <=? 122)%nat then ascii_of_nat (n - 32) else c.

Fixpoint upper (s : string) : string :=
  match s with
  | EmptyString => EmptyString
  | String c s' => String (upper_ascii c) (upper s')
  end.

(** ** inkex: the effect monad

    [effect] runs with one piece of state that outlives a single path: its
    local variable [closed], which is unbound ([None]) until an assignment
    executes.  [errors] collects the messages given to [inkex.errormsg]. *)

Record state : Type := State { closed : option bool; errors : list string }.

Record M (A : Type) : Type := MkM { run : state -> result (A * state) }.
Arguments MkM {A} run.
Arguments run {A} m st.

#[global] Instance M_ret : MRet M := fun A a => MkM (fun st => Ok (a, st)).
#[global] Instance M_bind : MBind M :=
  fun A B f m =>
    MkM (fun st => match run m st with
                   | Ok (a, st') => run (f a) st'
                   | Raise e => Raise e
                   end).

Definition lift {A} (r : result A) : M A :=
  MkM (fun st => match r with Ok a => Ok (a, st) | Raise e => Raise e end).

Module inkex.
Definition errormsg (msg : string) : M unit :=
  MkM (fun st => Ok (tt, State (closed st) (errors st ++ [msg]))).
End inkex.

(** Reading and assigning the local variable [closed]. *)
Definition read_closed : M bool :=
  MkM (fun st => match closed st with
                 | Some b => Ok (b, st)
                 | None => Raise (UnboundLocalError "closed")
                 end).

Definition assign_closed (b : bool) : M unit :=
  MkM (fun st => Ok (tt, State (Some b) (errors st))).

(** [for x in xs: acc = body(acc, x)] and [for x in xs: ys.append(body(x))]
    inside [effect]. *)
Fixpoint foldM {A B} (body : A -> B -> M A) (acc : A) (xs : list B) : M A :=
  match xs with
  | [] => mret acc
  | x :: xs' => acc' ← body acc x; foldM body acc' xs'
  end.

Fixpoint forM {A B} (body : A -> M B) (xs : list A) : M (list B) :=
  match xs with
  | [] => mret []
  | x :: xs' => y ← body x; ys ← forM body xs'; mret (y :: ys)
  end.

(** Conversions between floats and text that the embedding leaves open:
    [str(x)] on a float (shortest round-trip representation) and
    [float(s)] on an attribute value. *)
Class FloatText : Type := {
  str_float : Q -> string;
  float : string -> result Q
}.

(** ** The module-level functions of [edraw.py] *)

Definition ns : gmap string string :=
  list_to_map
    [ ("sodipodi", "http://sodipodi.sourceforge.net/DTD/sodipodi-0.dtd");
      ("cc", "http://creativecommons.org/ns#");
      ("ccOLD", "http://web.resource.org/cc/");
      ("svg", "http://www.w3.org/2000/svg");
      ("dc", "http://purl.org/dc/elements/1.1/");
      ("rdf", "http://www.w3.org/1999/02/22-rdf-syntax-ns#");
      ("inkscape", "http://www.inkscape.org/namespaces/inkscape");
      ("xlink", "http://www.w3.org/1999/xlink");
      ("xml", "http://www.w3.org/XML/1998/namespace") ].

(** The attribute name ['{{{prefix}}}local'] formatted with the entries of
    [ns]. *)
Definition qname (prefix local : string) : string :=
  "{" +:+ default "" (ns !! prefix) +:+ "}" +:+ local.

Definition get_opt_attrib (element : gmap string string) (attrib alt_attrib_val : string)
  : string :=
  match element !! attrib with
  | Some attrib_val => attrib_val
  | None => alt_attrib_val
  end.

(** The array returned by [get_layer_attribs]; the field order is the
    index order [0..4]. *)
Record layer_attribs : Type := LayerAttribs {
  layer_name : string;
  layer_hidden : string;
  layer_locked : string;
  colorRGB : string;
  alpha : Q
}.

Definition get_layer_attribs (svg_layer : gmap string string) (color : string)
  : result layer_attribs :=
  name ← getitem svg_layer (qname "inkscape" "label");
  let hidden := get_opt_attrib svg_layer "style" "false" in
  let hidden := if String.eqb hidden "display:inline" then "true" else "false" in
  let locked := get_opt_attrib svg_layer (qname "sodipodi" "insensitive") "false" in
  let colorRGB := slice_to 7 color in
  a ← int16 (slice_last 2 color);
  let alpha := (inject_Z a / 255)%Q in
  Ok (LayerAttribs name hidden locked colorRGB alpha).

Definition color_string2color_list (color_string : string) : list string :=
  let color_list := re.findall_colors 0 (upper color_string) in
  map (fun c => if (String.length c =? 7)%nat then c +:+ "FF" else c) color_list.

Definition rgba_conv (color : list num) : result string :=
  c0 ← index color 0; c1 ← index color 1; c2 ← index color 2;
  x0 ← format_02x c0; x1 ← format_02x c1; x2 ← format_02x c2;
  let rgba := "#" +:+ x0 +:+ x1 +:+ x2 in
  if (length color =? 3)%nat then Ok (rgba +:+ "FF")
  else
    c3 ← index color 3;
    Ok (rgba +:+ format_02x_int (int_times_100 c3)).

Definition no_group : exn := AttributeError "'NoneType' object has no attribute 'group'".

Definition get_outl (sty : string) : result string :=
  match re.search_fill sty with
  | None => Raise no_group
  | Some sty_fill =>
      if negb (String.eqb sty_fill "none") then Ok "false" else Ok "true"
  end.

Definition gen_style `{FloatText} (old_sty layer_color : string) (layer_alpha : Q)
  : result (string * string) :=
  match re.search_fill old_sty with
  | None => Raise no_group
  | Some sty_fill =>
      if negb (String.eqb sty_fill "none") then
        Ok ("fill:" +:+ layer_color +:+ ";stroke:none;opacity:" +:+ str_float layer_alpha,
            "false")
      else
        Ok ("fill:none;stroke:" +:+ layer_color +:+ ";stroke-width:1;opacity:"
              +:+ str_float layer_alpha,
            "true")
  end.

Definition area_fast_rect `{FloatText} (x y : string) : result string :=
  fx ← float x; fy ← float y;
  if Qle_bool fy fx then Ok "0 deg" else Ok "90 deg".

Definition too_few_points : string :=
  "Path consists of less than 2 points. The angle can not be calculated and is set to 0 deg.".

Definition area_fast_path (points : list float64) : M string :=
  if (length points <? 4)%nat then
    _ ← inkex.errormsg too_few_points;
    mret "0 deg"
  else
    p0 ← lift (index points 0); p1 ← lift (index points 1);
    p2 ← lift (index points 2); p3 ← lift (index points 3);
    if negb (Qeq_bool (value (fsub p2 p0)) 0) then
      let tan := fdiv (fsub p3 p1) (fsub p2 p0) in
      mret (format_0f (sign_bit tan) (np.rad2deg (np.arctan (value tan))) +:+ " deg")
    else mret "90 deg".

Local Open Scope complex_scope.

Definition cubic_bezier (cubic_bezier : string * list complex) (t : Q) : result complex :=
  b0 ← index (snd cubic_bezier) 0;
  b1 ← index (snd cubic_bezier) 1;
  b2 ← index (snd cubic_bezier) 2;
  b3 ← index (snd cubic_bezier) 3;
  Ok ((- b0 + 3 .* b1 - 3 .* b2 + b3) *: (t ^ 3)
      + (3 .* b0 - 6 .* b1 + 3 .* b2) *: (t ^ 2)
      + (- 3 .* b0 + 3 .* b1) *: t
      + b0).

Definition quadratic_bezier (quadratic_bezier : string * list complex) (t : Q)
  : result complex :=
  b0 ← index (snd quadratic_bezier) 0;
  b1 ← index (snd quadratic_bezier) 1;
  b2 ← index (snd quadratic_bezier) 2;
  Ok ((b0 - 2 .* b1 + b2) *: (t ^ 2)
      + (- 2 .* b0 + 2 .* b1) *: t
      + b0).

(** [1/n] on an [int]. *)
Definition one_over (n : Z) : result Q :=
  if (n =? 0)%Z then Raise ZeroDivisionError else Ok (1 / inject_Z n)%Q.

Definition interpolate_curved_path (path : string * list complex) (n : Z)
  : result (list complex) :=
  start ← one_over n;
  samples ← np.linspace start 1 n;
  let func :=
    if String.eqb (fst path) "C" then Some cubic_bezier
    else if String.eqb (fst path) "Q" then Some quadratic_bezier
    else None in
  for_each
    (fun t => match func with
              | Some f => f path t
              | None => Raise (UnboundLocalError "func")
              end)
    samples.

Local Close Scope complex_scope.

(** ** [edraw.effect] *)

(** One entry of [svg_path.path.to_arrays()]: the command letter and its
    arguments. *)
Definition seg : Type := string * list Q.

(** The strings [newp] and [points2] are kept as the pieces appended to
    them, one per [+=]; [newp_str] and [points2_str] give the text. *)
Inductive newp_piece : Type :=
| newp_M (p : complex)            (* 'M {:f},{:f}' *)
| newp_L (p : complex)            (* ' L {:f},{:f}' *)
| newp_Ls (ipoints : list complex) (* ' L ' + ' L '.join('{:f},{:f}' ...) *)
| newp_Z.                         (* ' Z' *)

Inductive points2_piece : Type :=
| pts_first (p : complex)          (* '({:.3f} {:.3f})' *)
| pts_next (p : complex)           (* ' ({:.3f} {:.3f})' *)
| pts_join (ipoints : list complex). (* ' ' + ' '.join('({:.3f} {:.3f})' ...) *)

Definition fmt_f (x : complex) : string :=
  format_fixed 6 (real x) +:+ "," +:+ format_fixed 6 (imag x).

Definition fmt_3f (x : complex) : string :=
  "(" +:+ format_fixed 3 (real x) +:+ " " +:+ format_fixed 3 (imag x) +:+ ")".

Definition newp_piece_str (p : newp_piece) : string :=
  match p with
  | newp_M x => "M " +:+ fmt_f x
  | newp_L x => " L " +:+ fmt_f x
  | newp_Ls xs => " L " +:+ join " L " (map fmt_f xs)
  | newp_Z => " Z"
  end.

Definition points2_piece_str (p : points2_piece) : string :=
  match p with
  | pts_first x => fmt_3f x
  | pts_next x => " " +:+ fmt_3f x
  | pts_join xs => " " +:+ join " " (map fmt_3f xs)
  end.

Definition newp_str (newp : list newp_piece) : string :=
  String.concat "" (map newp_piece_str newp).

Definition points2_str (points2 : list points2_piece) : string :=
  String.concat "" (map points2_piece_str points2).

(** The vertices written into [points2], in the order written. *)
Definition piece_vertices (p : points2_piece) : list complex :=
  match p with
  | pts_first x | pts_next x => [x]
  | pts_join xs => xs
  end.

Definition vertices (points2 : list points2_piece) : list complex :=
  concat (map piece_vertices points2).

(** [np.array(re.findall(r'[-+]?\d*\.\d+|\d+', newp), dtype=float)]: every
    number printed into [newp] by the code [f], read back. *)
Definition newp_piece_numbers (p : newp_piece) : list float64 :=
  let numbers (x : complex) := [read_fixed 6 (real x); read_fixed 6 (imag x)] in
  match p with
  | newp_M x | newp_L x => numbers x
  | newp_Ls xs => concat (map numbers xs)
  | newp_Z => []
  end.

Definition findall_numbers (newp : list newp_piece) : list float64 :=
  concat (map newp_piece_numbers newp).

(** The variables of the loop over [segs]. *)
Record cursor : Type := Cursor {
  PP : complex;
  CC : complex;
  newp : list newp_piece;
  points2 : list points2_piece
}.

Definition cursor0 : cursor := Cursor (Complex 0 0) (Complex 0 0) [] [].

Local Open Scope complex_scope.

(** One iteration of [for i in range(len(segs))]. *)
Definition path_step (num_int_points : Z) (c : cursor) (s : seg) : M cursor :=
  let letter := fst s in
  let a (k : nat) : M Q := lift (index (snd s) k) in
  if String.eqb letter "M" then
    a0 ← a 0; a1 ← a 1;
    let PP := Complex a0 a1 in
    mret (Cursor PP (CC c) (newp c ++ [newp_M PP]) (points2 c ++ [pts_first PP]))
  else if String.eqb letter "L" then
    a0 ← a 0; a1 ← a 1;
    let PP := Complex a0 a1 in
    mret (Cursor PP (CC c) (newp c ++ [newp_L PP]) (points2 c ++ [pts_next PP]))
  else if String.eqb letter "H" then
    a0 ← a 0;
    let PP := Complex a0 (imag (PP c)) in
    mret (Cursor PP (CC c) (newp c ++ [newp_L PP]) (points2 c ++ [pts_next PP]))
  else if String.eqb letter "V" then
    a0 ← a 0;
    let PP := Complex (real (PP c)) a0 in
    mret (Cursor PP (CC c) (newp c ++ [newp_L PP]) (points2 c ++ [pts_next PP]))
  else if String.eqb letter "C" then
    let seg_s := PP c in
    a0 ← a 0; a1 ← a 1;
    let seg_c1 := Complex a0 a1 in
    a2 ← a 2; a3 ← a 3;
    let CC := Complex a2 a3 in
    let seg_c2 := CC in
    a4 ← a 4; a5 ← a 5;
    let PP := Complex a4 a5 in
    let seg_e := PP in
    ipoints ← lift (interpolate_curved_path ("C", [seg_s; seg_c1; seg_c2; seg_e]) num_int_points);
    mret (Cursor PP CC (newp c ++ [newp_Ls ipoints]) (points2 c ++ [pts_join ipoints]))
  else if String.eqb letter "S" then
    let seg_s := PP c in
    let seg_c1 := 2 .* PP c - CC c in
    a0 ← a 0; a1 ← a 1;
    let CC := Complex a0 a1 in
    let seg_c2 := CC in
    a2 ← a 2; a3 ← a 3;
    let PP := Complex a2 a3 in
    let seg_e := PP in
    ipoints ← lift (interpolate_curved_path ("C", [seg_s; seg_c1; seg_c2; seg_e]) num_int_points);
    mret (Cursor PP CC (newp c ++ [newp_Ls ipoints]) (points2 c ++ [pts_join ipoints]))
  else if String.eqb letter "Q" then
    let seg_s := PP c in
    a0 ← a 0; a1 ← a 1;
    let CC := Complex a0 a1 in
    let seg_c := CC in
    a2 ← a 2; a3 ← a 3;
    let PP := Complex a2 a3 in
    let seg_e := PP in
    ipoints ← lift (interpolate_curved_path ("Q", [seg_s; seg_c; seg_e]) num_int_points);
    mret (Cursor PP CC (newp c ++ [newp_Ls ipoints]) (points2 c ++ [pts_join ipoints]))
  else if String.eqb letter "T" then
    let seg_s := PP c in
    let CC := 2 .* PP c - CC c in
    let seg_c := CC in
    a0 ← a 0; a1 ← a 1;
    let PP := Complex a0 a1 in
    let seg_e := PP in
    ipoints ← lift (interpolate_curved_path ("Q", [seg_s; seg_c; seg_e]) num_int_points);
    mret (Cursor PP CC (newp c ++ [newp_Ls ipoints]) (points2 c ++ [pts_join ipoints]))
  else if String.eqb letter "A" then
    a5 ← a 5; a6 ← a 6;
    let PP := Complex a5 a6 in
    mret (Cursor PP (CC c) (newp c ++ [newp_L PP]) (points2 c ++ [pts_next PP]))
  else if String.eqb letter "Z" then
    _ ← assign_closed true;
    mret (Cursor (PP c) (CC c) (newp c ++ [newp_Z]) (points2 c))
  else mret c.

Local Close Scope complex_scope.

(** The loop over the commands of one path; [PP], [CC], [newp] and
    [points2] start afresh, [closed] does not. *)
Definition interpret_path (num_int_points : Z) (segs : list seg) : M cursor :=
  foldM (path_step num_int_points) cursor0 segs.

(** Elements of the ely tree. *)
Inductive ely_shape : Type :=
| RECT (outline area_fast height width x y : string)
| ELLIPSE (outline area_fast rx ry cx cy : string)
| CIRCLE (outline area_fast cx cy r : string)
| POLYGON (outline area_fast points : string)
| LINES (points : string).

Record LAYER : Type := Build_LAYER {
  fill_color : string;
  fill_opacity : string;
  hidden : string;
  locked : string;
  name : string
}.

Record LAYER_REFERENCE : Type := Build_LAYER_REFERENCE {
  frame_cx : string;
  frame_cy : string;
  frame_size : string;
  ref : string;
  children : list ely_shape
}.

(** Elements of the drawing. *)
Record path_element : Type := SvgPath {
  path_attrib : gmap string string;
  to_arrays : list seg
}.

Record layer_element : Type := SvgLayer {
  layer_attrib : gmap string string;
  svg_rects : list (gmap string string);
  svg_ellipses : list (gmap string string);
  svg_circles : list (gmap string string);
  svg_paths : list path_element
}.

Record options : Type := Options {
  num_int_points : Z;
  apply_on_svg : bool;
  calc_rot : bool;
  color_cycle : string;
  color_string : string;
  col1 : list num;
  col2 : list num;
  col3 : list num;
  col4 : list num;
  col5 : list num
}.

Section effect.

Context `{FloatText}.
Variable opts : options.

(** The style given to a path drawn as [LINES]. *)
Definition lines_style (svg_layer_attribs : layer_attribs) : string :=
  "fill:none;stroke:" +:+ colorRGB svg_layer_attribs +:+ ";stroke-width:1;opacity:"
    +:+ str_float (alpha svg_layer_attribs).

(** Body of [for svg_rect in svg_rects]. *)
Definition effect_rect (svg_layer_attribs : layer_attribs) (svg_rect : gmap string string)
  : M (ely_shape * gmap string string) :=
  x ← lift (getitem svg_rect "x");
  y ← lift (getitem svg_rect "y");
  h ← lift (getitem svg_rect "height");
  w ← lift (getitem svg_rect "width");
  s ← lift (getitem svg_rect "style");
  '(ns, o) ← lift (gen_style s (colorRGB svg_layer_attribs) (alpha svg_layer_attribs));
  a ← lift (area_fast_rect w h);
  mret (RECT o a h w x y,
        if apply_on_svg opts then <["style" := ns]> svg_rect else svg_rect).

(** Body of [for svg_ellipse in svg_ellipses]. *)
Definition effect_ellipse (svg_layer_attribs : layer_attribs)
    (svg_ellipse : gmap string string) : M (ely_shape * gmap string string) :=
  rx ← lift (getitem svg_ellipse "rx");
  ry ← lift (getitem svg_ellipse "ry");
  cx ← lift (getitem svg_ellipse "cx");
  cy ← lift (getitem svg_ellipse "cy");
  s ← lift (getitem svg_ellipse "style");
  '(ns, o) ← lift (gen_style s (colorRGB svg_layer_attribs) (alpha svg_layer_attribs));
  a ← lift (area_fast_rect rx ry);
  mret (ELLIPSE o a rx ry cx cy,
        if apply_on_svg opts then <["style" := ns]> svg_ellipse else svg_ellipse).

(** Body of [for svg_circle in svg_circles]. *)
Definition effect_circle (svg_layer_attribs : layer_attribs)
    (svg_circle : gmap string string) : M (ely_shape * gmap string string) :=
  r ← lift (getitem svg_circle "r");
  cx ← lift (getitem svg_circle "cx");
  cy ← lift (getitem svg_circle "cy");
  s ← lift (getitem svg_circle "style");
  '(ns, o) ← lift (gen_style s (colorRGB svg_layer_attribs) (alpha svg_layer_attribs));
  let a := "0 deg" in
  mret (CIRCLE o a cx cy r,
        if apply_on_svg opts then <["style" := ns]> svg_circle else svg_circle).

(** Body of [for svg_path in svg_paths]. *)
Definition effect_path (svg_layer_attribs : layer_attribs) (svg_path : path_element)
  : M (ely_shape * path_element) :=
  d ← lift (getitem (path_attrib svg_path) "d");
  s ← lift (getitem (path_attrib svg_path) "style");
  let segs := to_arrays svg_path in
  c ← interpret_path (num_int_points opts) segs;
  let angle_points := findall_numbers (newp c) in
  a ← (if calc_rot opts then area_fast_path angle_points else mret "0 deg");
  is_closed ← read_closed;
  '(ns, shape) ←
    (if is_closed : bool then
       '(ns, o) ← lift (gen_style s (colorRGB svg_layer_attribs) (alpha svg_layer_attribs));
       mret (ns, POLYGON o a (points2_str (points2 c)))
     else
       mret (lines_style svg_layer_attribs, LINES (points2_str (points2 c))));
  mret (shape,
        if apply_on_svg opts
        then SvgPath (<["d" := newp_str (newp c)]> (<["style" := ns]> (path_attrib svg_path)))
                     (to_arrays svg_path)
        else svg_path).

(** The value of the local variable [color_cycle] after the
    [if]/[elif] chain; [None] when no branch assigned it. *)
Definition default_color_cycle : list string :=
  ["#1F77B47F"; "#FF7F0E7F"; "#2CA02C7F"; "#D627287F"; "#9467BD7F";
   "#8C564B7F"; "#E377C27F"; "#7F7F7F7F"; "#BCBD227F"; "#17BECF7F"].

Definition choose_color_cycle : result (option (list string)) :=
  let color_cycle_type := color_cycle opts in
  if String.eqb color_cycle_type "default" then Ok (Some default_color_cycle)
  else if String.eqb color_cycle_type "string" then
    Ok (Some (color_string2color_list (color_string opts)))
  else if String.eqb color_cycle_type "custom" then
    Some <$> for_each rgba_conv [col1 opts; col2 opts; col3 opts; col4 opts; col5 opts]
  else Ok None.

(** [color_cycle[i % len(color_cycle)]]. *)
Definition cycle_color (color_cycle : option (list string)) (i : nat) : result string :=
  match color_cycle with
  | None => Raise (UnboundLocalError "color_cycle")
  | Some cycle =>
      if (length cycle =? 0)%nat then Raise ZeroDivisionError
      else index cycle (i mod length cycle)
  end.

(** Body of [for i, svg_layer in enumerate(svg_layer_list)]. *)
Definition effect_layer (size : Q) (color_cycle : option (list string))
    (entry : nat * layer_element) : M (LAYER * LAYER_REFERENCE * layer_element) :=
  let '(i, svg_layer) := entry in
  layer_color ← lift (cycle_color color_cycle i);
  svg_layer_attribs ← lift (get_layer_attribs (layer_attrib svg_layer) layer_color);
  let ely_layer :=
    Build_LAYER (colorRGB svg_layer_attribs) (str_float (alpha svg_layer_attribs))
                (layer_hidden svg_layer_attribs) (layer_locked svg_layer_attribs)
                (layer_name svg_layer_attribs) in
  rects ← forM (effect_rect svg_layer_attribs) (svg_rects svg_layer);
  ellipses ← forM (effect_ellipse svg_layer_attribs) (svg_ellipses svg_layer);
  circles ← forM (effect_circle svg_layer_attribs) (svg_circles svg_layer);
  paths ← forM (effect_path svg_layer_attribs) (svg_paths svg_layer);
  let ely_layer_reference :=
    Build_LAYER_REFERENCE (str_float (size / 2)) (str_float (size / 2)) (str_float size)
                          (layer_name svg_layer_attribs)
                          (rects.*1 ++ ellipses.*1 ++ circles.*1 ++ paths.*1) in
  mret (ely_layer, ely_layer_reference,
        SvgLayer (layer_attrib svg_layer) rects.*2 ellipses.*2 circles.*2 paths.*2).

Definition enumerate {A} (l : list A) : list (nat * A) := combine (seq 0 (length l)) l.

(** [effect]: the layers and layer references added to the ely tree, each
    with the layer of the drawing as it is left, and the messages given to
    [inkex.errormsg]; or the exception that ends the run.  [closed] is
    unbound when the run starts.  The resizing of the root element under
    [apply_on_svg] and the creation and writing of the ely tree belong to
    the host side and are not part of it. *)
Definition effect_body (size : Q) (svg_layer_list : list layer_element)
  : M (list (LAYER * LAYER_REFERENCE * layer_element)) :=
  color_cycle ← lift choose_color_cycle;
  forM (effect_layer size color_cycle) (enumerate svg_layer_list).

Definition effect (size : Q) (svg_layer_list : list layer_element)
  : result (list (LAYER * LAYER_REFERENCE * layer_element) * list string) :=
  '(out, st) ← run (effect_body size svg_layer_list) (State None []);
  Ok (out, errors st).

End effect.

(** ** Definitions used to state the properties

    The two Bezier polynomials as the design document writes them, the
    pattern of the style parser, the counts of the vertex formula, and
    sample drawings. *)

Local Open Scope complex_scope.

Definition cubic_B (b0 b1 b2 b3 : complex) (t : Q) : complex :=
  (- b0 + 3 .* b1 - 3 .* b2 + b3) *: (t ^ 3)
  + (3 .* b0 - 6 .* b1 + 3 .* b2) *: (t ^ 2)
  + (- 3 .* b0 + 3 .* b1) *: t
  + b0.

Definition quadratic_B (b0 b1 b2 : complex) (t : Q) : complex :=
  (b0 - 2 .* b1 + b2) *: (t ^ 2) + (- 2 .* b0 + 2 .* b1) *: t + b0.

Local Close Scope complex_scope.

(** [c] occurs in [s]. *)
Fixpoint occurs (c : ascii) (s : string) : Prop :=
  match s with
  | EmptyString => False
  | String a s' => a = c \/ occurs c s'
  end.

(** [s] contains a match of the pattern [fill:(.+?);] whose group is [v]:
    the text [fill:], one or more characters other than a newline, and a
    semicolon. *)
Definition fill_pattern (s v : string) : Prop :=
  exists pre post : string,
    s = pre +:+ "fill:" +:+ v +:+ ";" +:+ post /\ v <> "" /\ ~ occurs re.newline v.

(** [s] has no [fill:] in it at all. *)
Definition no_fill_property (s : string) : Prop :=
  ~ exists pre post : string, s = pre +:+ "fill:" +:+ post.

(** The number of commands of [segs] with the given letter. *)
Fixpoint count (letter : string) (segs : list seg) : nat :=
  match segs with
  | [] => 0
  | s :: segs' => (if String.eqb (fst s) letter then 1 else 0) + count letter segs'
  end.

(** The arguments a command letter reads. *)
Definition arity (letter : string) : nat :=
  if String.eqb letter "M" then 2
  else if String.eqb letter "L" then 2
  else if String.eqb letter "H" then 1
  else if String.eqb letter "V" then 1
  else if String.eqb letter "C" then 6
  else if String.eqb letter "S" then 4
  else if String.eqb letter "Q" then 4
  else if String.eqb letter "T" then 2
  else if String.eqb letter "A" then 7
  else 0.

(** A command as [to_arrays] delivers it: it has the arguments of its
    letter. *)
Definition well_formed (s : seg) : Prop := (arity (fst s) <= length (snd s))%nat.

Definition is_curve (letter : string) : bool :=
  String.eqb letter "C" || String.eqb letter "S" ||
  String.eqb letter "Q" || String.eqb letter "T".

Definition is_point (letter : string) : bool :=
  String.eqb letter "M" || String.eqb letter "L" || String.eqb letter "H" ||
  String.eqb letter "V" || String.eqb letter "A".

(** The vertices the design document assigns to a command: one for a
    point command, [n] for a curve, none otherwise. *)
Definition emitted (n : nat) (letter : string) : nat :=
  if is_point letter then 1 else if is_curve letter then n else 0.

(** The vertex count of the design document for a sampling count [n]. *)
Definition vertex_formula (n : nat) (segs : list seg) : nat :=
  (count "M" segs + count "L" segs + count "H" segs + count "V" segs + count "A" segs)
  + n * (count "C" segs + count "S" segs + count "Q" segs + count "T" segs).

(** The element name of a shape of the ely tree. *)
Definition shape_tag (s : ely_shape) : string :=
  match s with
  | RECT _ _ _ _ _ _ => "RECT"
  | ELLIPSE _ _ _ _ _ _ => "ELLIPSE"
  | CIRCLE _ _ _ _ _ => "CIRCLE"
  | POLYGON _ _ _ => "POLYGON"
  | LINES _ => "LINES"
  end.

Definition not_LINES (shape : ely_shape) : Prop := shape_tag shape <> "LINES".

(** The element names written under each layer reference by a run. *)
Definition emitted_tags
    (r : result (list (LAYER * LAYER_REFERENCE * layer_element) * list string))
  : result (list (list string)) :=
  match r with
  | Ok (out, _) =>
      Ok (map (fun entry : LAYER * LAYER_REFERENCE * layer_element =>
                 map shape_tag (children entry.1.2)) out)
  | Raise e => Raise e
  end.

(** Sample drawings: one layer holding the given paths; a triangle closed
    by [Z] and the same outline left open, each with a given style. *)
Definition layer_of (paths : list path_element) : layer_element :=
  SvgLayer (<[qname "inkscape" "label" := "Layer 1"]> ∅) [] [] [] paths.

Definition path_of (style : string) (segs : list seg) : path_element :=
  SvgPath (<["d" := "unused"]> (<["style" := style]> ∅)) segs.

Definition closed_triangle (style : string) : path_element :=
  path_of style [("M", [0; 0]%Q); ("L", [10; 0]%Q); ("L", [10; 10]%Q); ("Z", [])].

Definition open_triangle (style : string) : path_element :=
  path_of style [("M", [0; 0]%Q); ("L", [10; 0]%Q); ("L", [10; 10]%Q)].

Definition default_options : options :=
  Options 10 false false "default"
    "#1F77B47F, #FF7F0E7F, #2CA02C7F, #D627287F, #9467BD7F, #8C564B7F, #E377C27F, #7F7F7F7F, #BCBD227F, #17BECF7F"
    [PyInt 31; PyInt 119; PyInt 180; PyFloat 1] [PyInt 31; PyInt 119; PyInt 180; PyFloat 1]
    [PyInt 31; PyInt 119; PyInt 180; PyFloat 1] [PyInt 31; PyInt 119; PyInt 180; PyFloat 1]
    [PyInt 31; PyInt 119; PyInt 180; PyFloat 1].

(** A computation of [effect] that leaves [closed] and the messages as
    they are. *)
Definition unchanged {A} (m : M A) : Prop :=
  forall (st : state) (a : A) (st' : state), run m st = Ok (a, st') -> st' = st.

(** [closed] is unbound or true. *)
Definition never_false (st : state) : Prop := closed st <> Some false.

(** The check behind the round trip of two hexadecimal digits. *)
Definition two_digit_roundtrip (n : nat) : bool :=
  (String.length (format_02x_int (Z.of_nat n)) =? 2)%nat &&
  match int16 (format_02x_int (Z.of_nat n)) with
  | Ok z => (z =? Z.of_nat n)%Z
  | Raise _ => false
  end.

(** A boolean search for the literal text [p] in [s]. *)
Fixpoint has_literal (p s : string) : bool :=
  match re.literal p s with
  | Some _ => true
  | None => match s with
            | EmptyString => false
            | String _ s' => has_literal p s'
            end
  end.

(** Reading a plain decimal literal: sign, digits, optional fraction. *)
Fixpoint decimal_digits (acc : Z) (count : nat) (s : string) : option (Z * nat) :=
  match s with
  | EmptyString => Some (acc, count)
  | String c s' =>
      let n := Z.of_N (N_of_ascii c) in
      if ((48 <=? n) && (n <=? 57))%Z
      then decimal_digits (10 * acc + (n - 48))%Z (S count) s'
      else None
  end.

Fixpoint split_at_point (s : string) : string * option string :=
  match s with
  | EmptyString => (EmptyString, None)
  | String c s' =>
      if Ascii.eqb c "." then (EmptyString, Some s')
      else let '(a, b) := split_at_point s' in (String c a, b)
  end.

Definition unsigned_decimal (s : string) : result Q :=
  let bad := Raise (ValueError "could not convert string to float") in
  let '(ip, fp) := split_at_point s in
  match decimal_digits 0 0 ip, fp with
  | Some (i, S _), None => Ok (inject_Z i)
  | Some (i, ni), Some f =>
      match decimal_digits 0 0 f with
      | Some (fr, nf) =>
          if (ni + nf =? 0)%nat then bad
          else Ok (inject_Z i + inject_Z fr / inject_Z (10 ^ Z.of_nat nf))%Q
      | None => bad
      end
  | _, _ => bad
  end.

Definition plain_float (s : string) : result Q :=
  match s with
  | String "-" s' => q ← unsigned_decimal s'; Ok (- q)%Q
  | String "+" s' => unsigned_decimal s'
  | _ => unsigned_decimal s
  end.

(** An instance of [FloatText] for running the definitions on concrete
    drawings: floats are printed with six decimals, and [float] reads plain
    decimal literals. *)
Definition sample_text : FloatText :=
  {| str_float := format_fixed 6; float := plain_float |}.

(** A piece of [points2] that starts with a space and holds a vertex. *)
Definition spaced (p : points2_piece) : Prop :=
  match p with
  | pts_first _ => False
  | pts_next _ => True
  | pts_join ipoints => ipoints <> []
  end.

(** The messages a run has given so far: each is the warning of
    [area_fast_path], and there is none when [calc_rot] is off. *)
Definition only_warnings (opts : options) (st : state) : Prop :=
  Forall (fun msg => msg = too_few_points) (errors st) /\
  (calc_rot opts = false -> errors st = []).

(** * Properties *)

#[local] Arguments String.append !_ _ : simpl nomatch.

(** ** CurveFlattener *)

Lemma set_last_length (y : list Q) (v : Q) : length (np.set_last y v) = length y.
Proof.
  induction y as [|x [|x' y'] IH]; simpl in *; auto.
Qed.

Lemma set_last_lookup_last (y : list Q) (v : Q) (k : nat) :
  S k = length y -> np.set_last y v !! k = Some v.
Proof.
  revert k. induction y as [|x [|x' y'] IH]; intros k Hk; simpl in *; try lia.
  - assert (k = 0%nat) by lia. subst. reflexivity.
  - destruct k as [|k]; [lia|]. simpl. apply IH. lia.
Qed.

Lemma set_last_lookup_before (y : list Q) (v : Q) (k : nat) :
  (S k < length y)%nat -> np.set_last y v !! k = y !! k.
Proof.
  revert k. induction y as [|x [|x' y'] IH]; intros k Hk; simpl in *; try lia.
  destruct k as [|k]; [reflexivity|]. simpl. apply IH. lia.
Qed.

Lemma arange_lookup (num k : nat) (q : Q) :
  np.arange num !! k = Some q -> q = inject_Z (Z.of_nat k) /\ (k < num)%nat.
Proof.
  unfold np.arange. rewrite list_lookup_fmap.
  destruct (seq 0 num !! k) as [j|] eqn:E; simpl; [|discriminate].
  apply lookup_seq in E. destruct E as [-> ?]. intros [= <-]. split; [reflexivity|lia].
Qed.

Lemma arange_length (num : nat) : length (np.arange num) = num.
Proof. unfold np.arange. rewrite length_fmap. apply length_seq. Qed.

Lemma inject_Z_pos (n : Z) : (1 <= n)%Z -> (0 < inject_Z n)%Q.
Proof. intros Hn. change 0%Q with (inject_Z 0). rewrite <- Zlt_Qlt. lia. Qed.

(** The samples of [np.linspace(1/n, 1, n)] are [1/n, 2/n, ..., n/n]. *)
Lemma linspace_samples (n : Z) :
  (1 <= n)%Z ->
  exists ts : list Q,
    np.linspace (1 / inject_Z n) 1 n = Ok ts /\
    length ts = Z.to_nat n /\
    forall (k : nat) (t : Q),
      ts !! k = Some t -> (t == (inject_Z (Z.of_nat k) + 1) / inject_Z n)%Q.
Proof.
  intros Hn. unfold np.linspace.
  destruct (Z.ltb_spec n 0) as [?|_]; [lia|].
  eexists. split; [reflexivity|]. split.
  - destruct (1 <? n)%Z; rewrite ?set_last_length;
      destruct (0 <? n - 1)%Z; try destruct (Qeq_bool _ _);
      rewrite !length_fmap; apply arange_length.
  - pose proof (inject_Z_pos n Hn) as Hq.
    assert (Hval : forall (k : nat) (t : Q),
      ((fun v => (v + 1 / inject_Z n)%Q) <$>
        (if (0 <? n - 1)%Z
         then
           (if Qeq_bool ((1 - 1 / inject_Z n) / inject_Z (n - 1)) 0
            then (fun k => (k / inject_Z (n - 1) * (1 - 1 / inject_Z n))%Q) <$> np.arange (Z.to_nat n)
            else (fun k => (k * ((1 - 1 / inject_Z n) / inject_Z (n - 1)))%Q) <$> np.arange (Z.to_nat n))
         else (fun k => (k * (1 - 1 / inject_Z n))%Q) <$> np.arange (Z.to_nat n))) !! k = Some t ->
      (t == (inject_Z (Z.of_nat k) + 1) / inject_Z n)%Q).
    { intros k t. rewrite list_lookup_fmap.
      destruct (Z.ltb_spec 0 (n - 1)) as [Hdiv|Hdiv].
      - assert (Hd : (inject_Z (n - 1) == inject_Z n - 1)%Q).
        { unfold Zminus. rewrite inject_Z_plus. reflexivity. }
        assert (Hd0 : ~ (inject_Z n - 1 == 0)%Q).
        { rewrite <- Hd. intros Hc. 
          assert (0 < inject_Z (n - 1))%Q by (apply inject_Z_pos; lia).
          rewrite Hc in H. apply (Qlt_irrefl 0), H. }
        destruct (Qeq_bool _ _); rewrite list_lookup_fmap;
          destruct (np.arange (Z.to_nat n) !! k) as [q|] eqn:E; simpl; try discriminate;
          apply arange_lookup in E; destruct E as [-> _]; intros [= <-];
          rewrite Hd; field; split; auto; intros Hc; rewrite Hc in Hq; apply (Qlt_irrefl 0), Hq.
      - assert (n = 1%Z) by lia. subst n.
        rewrite list_lookup_fmap.
        destruct (np.arange (Z.to_nat 1) !! k) as [q|] eqn:E; simpl; try discriminate.
        apply arange_lookup in E. destruct E as [-> Hk]. intros [= <-].
        assert (k = 0%nat) as -> by lia. reflexivity. }
    destruct (Z.ltb_spec 1 n) as [Hgt|Hle].
    + intros k t Hk.
      match type of Hk with np.set_last ?y _ !! _ = _ => set (ys := y) in * end.
      assert (Hlen : length ys = Z.to_nat n).
      { subst ys. destruct (0 <? n - 1)%Z; try destruct (Qeq_bool _ _);
          rewrite !length_fmap; apply arange_length. }
      assert (Hklt : (k < length ys)%nat).
      { apply lookup_lt_Some in Hk. rewrite set_last_length in Hk. exact Hk. }
      destruct (decide (S k = length ys)) as [Hlast|Hnot].
      * rewrite (set_last_lookup_last ys 1 k Hlast) in Hk. injection Hk as <-.
        assert (Hkn : (inject_Z (Z.of_nat k) + 1 == inject_Z n)%Q).
        { change 1%Q with (inject_Z 1). rewrite <- inject_Z_plus.
          f_equiv. lia. }
        rewrite Hkn. field. intros Hc; rewrite Hc in Hq; apply (Qlt_irrefl 0), Hq.
      * rewrite set_last_lookup_before in Hk by lia.
        apply (Hval k t Hk).
    + exact Hval.
Qed.

Lemma for_each_total {A B} (f : A -> result B) (g : A -> B) (xs : list A) :
  (forall x, f x = Ok (g x)) -> for_each f xs = Ok (g <$> xs).
Proof.
  intros Hf. induction xs as [|x xs IH]; [reflexivity|].
  cbn. rewrite Hf. cbn. rewrite IH. reflexivity.
Qed.

Lemma sample_lt (n : Z) (i j : nat) :
  (1 <= n)%Z -> (i < j)%nat ->
  ((inject_Z (Z.of_nat i) + 1) / inject_Z n < (inject_Z (Z.of_nat j) + 1) / inject_Z n)%Q.
Proof.
  intros Hn Hij. pose proof (inject_Z_pos n Hn) as Hq.
  unfold Qdiv. rewrite !(Qmult_comm _ (/ inject_Z n)).
  apply Qmult_lt_l; [apply Qinv_lt_0_compat; exact Hq|].
  apply Qplus_lt_l. rewrite <- Zlt_Qlt. lia.
Qed.

Lemma sample_range (n : Z) (k : nat) :
  (1 <= n)%Z -> (k < Z.to_nat n)%nat ->
  (0 < (inject_Z (Z.of_nat k) + 1) / inject_Z n /\
   (inject_Z (Z.of_nat k) + 1) / inject_Z n <= 1)%Q.
Proof.
  intros Hn Hk. pose proof (inject_Z_pos n Hn) as Hq.
  assert (Hk1 : (inject_Z (Z.of_nat k) + 1 == inject_Z (Z.of_nat k + 1))%Q).
  { rewrite inject_Z_plus. reflexivity. }
  rewrite Hk1. split.
  - apply Qlt_shift_div_l; [exact Hq|]. rewrite Qmult_0_l.
    change 0%Q with (inject_Z 0). rewrite <- Zlt_Qlt. lia.
  - apply Qle_shift_div_r; [exact Hq|]. rewrite Qmult_1_l.
    rewrite <- Zle_Qle. lia.
Qed.

(** A curve is evaluated at the samples of [np.linspace(1/n, 1, n)]. *)
Lemma interpolate_curved_path_linspace (n : Z) (ts : list Q) :
  (1 <= n)%Z -> np.linspace (1 / inject_Z n) 1 n = Ok ts ->
  (forall b0 b1 b2 b3 : complex,
      interpolate_curved_path ("C", [b0; b1; b2; b3]) n = Ok (cubic_B b0 b1 b2 b3 <$> ts)) /\
  (forall b0 b1 b2 : complex,
      interpolate_curved_path ("Q", [b0; b1; b2]) n = Ok (quadratic_B b0 b1 b2 <$> ts)).
Proof.
  intros Hn Hlin.
  assert (Hone : one_over n = Ok (1 / inject_Z n)%Q).
  { unfold one_over. destruct (Z.eqb_spec n 0); [lia|reflexivity]. }
  split; intros; unfold interpolate_curved_path; rewrite Hone; cbn; rewrite Hlin; cbn;
    apply for_each_total; reflexivity.
Qed.

(** C3. For every [n >= 1], [interpolate_curved_path] evaluates the cubic or
    quadratic Bezier it is given at exactly [n] parameters, the [k]-th
    (counting from zero) being [(k+1)/n]: they increase strictly, lie in
    (0, 1] (so [t = 0] is not sampled), and the returned list holds the [n]
    curve points in that order. *)
Theorem interpolate_curved_path_samples (n : Z) :
  (1 <= n)%Z ->
  exists ts : list Q,
    length ts = Z.to_nat n /\
    (forall (k : nat) (t : Q),
        ts !! k = Some t -> (t == (inject_Z (Z.of_nat k) + 1) / inject_Z n)%Q) /\
    (forall (i j : nat) (ti tj : Q),
        (i < j)%nat -> ts !! i = Some ti -> ts !! j = Some tj -> (ti < tj)%Q) /\
    Forall (fun t => 0 < t /\ t <= 1)%Q ts /\
    (forall b0 b1 b2 b3 : complex,
        interpolate_curved_path ("C", [b0; b1; b2; b3]) n = Ok (cubic_B b0 b1 b2 b3 <$> ts) /\
        length (cubic_B b0 b1 b2 b3 <$> ts) = Z.to_nat n) /\
    (forall b0 b1 b2 : complex,
        interpolate_curved_path ("Q", [b0; b1; b2]) n = Ok (quadratic_B b0 b1 b2 <$> ts) /\
        length (quadratic_B b0 b1 b2 <$> ts) = Z.to_nat n).
Proof.
  intros Hn. destruct (linspace_samples n Hn) as (ts & Hlin & Hlen & Hnth).
  destruct (interpolate_curved_path_linspace n ts Hn Hlin) as [HC HQ].
  exists ts. split; [exact Hlen|]. split; [exact Hnth|].
  repeat split.
  - intros i j ti tj Hij Hi Hj.
    rewrite (Hnth i ti Hi), (Hnth j tj Hj). apply sample_lt; assumption.
  - apply Forall_lookup_2. intros k t Hk.
    pose proof (lookup_lt_Some _ _ _ Hk) as Hlt. rewrite Hlen in Hlt.
    rewrite (Hnth k t Hk). apply sample_range; assumption.
  - apply HC.
  - rewrite length_fmap. exact Hlen.
  - apply HQ.
  - rewrite length_fmap. exact Hlen.
Qed.

Lemma interpolate_curved_path_samples_witness :
  exists ts : list Q,
    length ts = Z.to_nat 4 /\
    (forall (k : nat) (t : Q),
        ts !! k = Some t -> (t == (inject_Z (Z.of_nat k) + 1) / inject_Z 4)%Q) /\
    (forall (i j : nat) (ti tj : Q),
        (i < j)%nat -> ts !! i = Some ti -> ts !! j = Some tj -> (ti < tj)%Q) /\
    Forall (fun t => 0 < t /\ t <= 1)%Q ts /\
    (forall b0 b1 b2 b3 : complex,
        interpolate_curved_path ("C", [b0; b1; b2; b3]) 4 = Ok (cubic_B b0 b1 b2 b3 <$> ts) /\
        length (cubic_B b0 b1 b2 b3 <$> ts) = Z.to_nat 4) /\
    (forall b0 b1 b2 : complex,
        interpolate_curved_path ("Q", [b0; b1; b2]) 4 = Ok (quadratic_B b0 b1 b2 <$> ts) /\
        length (quadratic_B b0 b1 b2 <$> ts) = Z.to_nat 4).
Proof. apply (interpolate_curved_path_samples 4). lia. Defined.

(** C4. At [t = 1] the cubic polynomial
    [(-b0+3b1-3b2+b3) t^3 + (3b0-6b1+3b2) t^2 + (-3b0+3b1) t + b0] that
    [cubic_bezier] evaluates is [b3], and the quadratic polynomial
    [(b0-2b1+b2) t^2 + (-2b0+2b1) t + b0] that [quadratic_bezier] evaluates
    is [b2], componentwise and exactly, in rational arithmetic. *)
Theorem bezier_at_one (tag : string) (b0 b1 b2 b3 : complex) :
  (cubic_bezier (tag, [b0; b1; b2; b3]) 1 = Ok (cubic_B b0 b1 b2 b3 1) /\
   (cubic_B b0 b1 b2 b3 1 == b3)%C) /\
  (quadratic_bezier (tag, [b0; b1; b2]) 1 = Ok (quadratic_B b0 b1 b2 1) /\
   (quadratic_B b0 b1 b2 1 == b2)%C).
Proof.
  split; (split; [reflexivity|]).
  - destruct b0, b1, b2, b3; split; cbn; ring.
  - destruct b0, b1, b2; split; cbn; ring.
Qed.

(** ** StyleMapper *)

Lemma append_assoc (a b c : string) : (a +:+ b) +:+ c = a +:+ b +:+ c.
Proof. induction a as [|x a IH]; [reflexivity|]. cbn. rewrite IH. reflexivity. Qed.

Lemma lazy_until_semicolon_sound (s g : string) :
  re.lazy_until_semicolon s = Some g ->
  (exists post, s = g +:+ ";" +:+ post) /\ ~ occurs re.newline g.
Proof.
  revert g. induction s as [|c s IH]; intros g Hg; [discriminate|].
  cbn in Hg. destruct (Ascii.eqb_spec c ";") as [->|Hsemi].
  - injection Hg as <-. split; [exists s; reflexivity|intros []].
  - destruct (Ascii.eqb_spec c re.newline) as [->|Hnl]; [discriminate|].
    destruct (re.lazy_until_semicolon s) as [g'|]; [|discriminate].
    injection Hg as <-. destruct (IH g' eq_refl) as [[post ->] Hno].
    split; [exists post; reflexivity|].
    intros [Hc|Hc]; [congruence|exact (Hno Hc)].
Qed.

Lemma lazy_until_semicolon_complete (v post : string) :
  ~ occurs re.newline v -> exists g, re.lazy_until_semicolon (v +:+ ";" +:+ post) = Some g.
Proof.
  induction v as [|c v IH]; intros Hno.
  - exists "". reflexivity.
  - cbn. destruct (Ascii.eqb_spec c ";"); [eexists; reflexivity|].
    destruct (Ascii.eqb_spec c re.newline) as [->|_]; [exfalso; apply Hno; left; reflexivity|].
    destruct IH as [g Hg]; [intros Hc; apply Hno; right; exact Hc|].
    cbn in Hg. rewrite Hg. eexists; reflexivity.
Qed.

Lemma literal_sound (p s r : string) : re.literal p s = Some r -> s = p +:+ r.
Proof.
  revert s. induction p as [|a p IH]; intros s Hs; cbn in *.
  - congruence.
  - destruct s as [|b s]; [discriminate|].
    destruct (Ascii.eqb_spec a b) as [->|]; [|discriminate].
    f_equal. apply IH. exact Hs.
Qed.

Lemma literal_complete (p r : string) : re.literal p (p +:+ r) = Some r.
Proof.
  induction p as [|a p IH]; cbn; [reflexivity|].
  rewrite Ascii.eqb_refl. exact IH.
Qed.

Lemma match_fill_here_sound (s v : string) :
  re.match_fill_here s = Some v ->
  (exists post, s = "fill:" +:+ v +:+ ";" +:+ post) /\ v <> "" /\ ~ occurs re.newline v.
Proof.
  unfold re.match_fill_here. intros Hm.
  destruct (re.literal "fill:" s) as [[|c rest]|] eqn:Hl; try discriminate.
  apply literal_sound in Hl. subst s.
  destruct (Ascii.eqb_spec c re.newline) as [->|Hnl]; [discriminate|].
  destruct (re.lazy_until_semicolon rest) as [g|] eqn:Hg; [|discriminate].
  injection Hm as <-. apply lazy_until_semicolon_sound in Hg.
  destruct Hg as [[post ->] Hno].
  split; [exists post; reflexivity|]. split; [discriminate|].
  intros [Hc|Hc]; [congruence|exact (Hno Hc)].
Qed.

Lemma match_fill_here_complete (v post : string) :
  v <> "" -> ~ occurs re.newline v ->
  exists g, re.match_fill_here ("fill:" +:+ v +:+ ";" +:+ post) = Some g.
Proof.
  intros Hne Hno. unfold re.match_fill_here. rewrite literal_complete.
  destruct v as [|c v]; [contradiction|]. cbn.
  destruct (Ascii.eqb_spec c re.newline) as [->|_]; [exfalso; apply Hno; left; reflexivity|].
  destruct (lazy_until_semicolon_complete v post) as [g Hg];
    [intros Hc; apply Hno; right; exact Hc|].
  cbn in Hg. rewrite Hg. eexists; reflexivity.
Qed.

(** What [re.search] returns is a match of the pattern ... *)
Lemma search_fill_sound (s v : string) :
  re.search_fill s = Some v -> fill_pattern s v.
Proof.
  induction s as [|c s IH]; intros Hs.
  - discriminate.
  - cbn [re.search_fill] in Hs.
    destruct (re.match_fill_here (String c s)) as [g|] eqn:Hm.
    + injection Hs as <-. apply match_fill_here_sound in Hm.
      destruct Hm as ([post Hpost] & Hne & Hno).
      exists "", post. auto.
    + destruct (IH Hs) as (pre & post & -> & Hne & Hno).
      exists (String c pre), post. auto.
Qed.

(** ... and it finds one whenever the string contains any. *)
Lemma search_fill_complete (s v : string) :
  fill_pattern s v -> exists g, re.search_fill s = Some g.
Proof.
  intros (pre & post & -> & Hne & Hno).
  induction pre as [|c pre IH].
  - destruct (match_fill_here_complete v post Hne Hno) as [g Hg].
    exists g. change ("" +:+ "fill:" +:+ v +:+ ";" +:+ post) with
      (String "f" ("ill:" +:+ v +:+ ";" +:+ post)) in *.
    change ("fill:" +:+ v +:+ ";" +:+ post) with
      (String "f" ("ill:" +:+ v +:+ ";" +:+ post)) in Hg.
    cbn [re.search_fill]. rewrite Hg. reflexivity.
  - destruct IH as [g Hg].
    change (String c pre +:+ "fill:" +:+ v +:+ ";" +:+ post)
      with (String c (pre +:+ "fill:" +:+ v +:+ ";" +:+ post)).
    cbn [re.search_fill].
    destruct (re.match_fill_here _) as [g'|]; [eexists; reflexivity|].
    exists g. exact Hg.
Qed.

Lemma search_fill_none_iff (s : string) :
  re.search_fill s = None <-> ~ exists v, fill_pattern s v.
Proof.
  split.
  - intros Hn [v Hv]. apply search_fill_complete in Hv. destruct Hv as [g Hg]. congruence.
  - intros Hno. destruct (re.search_fill s) as [v|] eqn:Hs; [|reflexivity].
    exfalso. apply Hno. exists v. apply search_fill_sound. exact Hs.
Qed.

Lemma no_fill_property_no_match (s : string) :
  no_fill_property s -> re.search_fill s = None.
Proof.
  intros Hno. apply search_fill_none_iff. intros (v & pre & post & -> & _).
  apply Hno. exists pre, (v +:+ ";" +:+ post). reflexivity.
Qed.

Lemma string_eqb_false (a b : string) : a <> b -> String.eqb a b = false.
Proof. intros Hne. destruct (String.eqb_spec a b); [contradiction|reflexivity]. Qed.

(** C6. When the pattern [fill:(v);] extracts the value [v] from the old
    style: if [v] is not [none] the shape is filled ([outline] is false) and
    the new style is [fill:{color};stroke:none;opacity:{alpha}]; if [v] is
    [none] the shape is an outline and the new style is
    [fill:none;stroke:{color};stroke-width:1;opacity:{alpha}]. *)
Theorem gen_style_fill_or_outline `{FloatText}
    (old_sty v layer_color : string) (layer_alpha : Q) :
  re.search_fill old_sty = Some v ->
  fill_pattern old_sty v /\
  (v <> "none" ->
   gen_style old_sty layer_color layer_alpha =
     Ok ("fill:" +:+ layer_color +:+ ";stroke:none;opacity:" +:+ str_float layer_alpha,
         "false")) /\
  (v = "none" ->
   gen_style old_sty layer_color layer_alpha =
     Ok ("fill:none;stroke:" +:+ layer_color +:+ ";stroke-width:1;opacity:"
           +:+ str_float layer_alpha,
         "true")).
Proof.
  intros Hv. split; [apply search_fill_sound; exact Hv|].
  unfold gen_style. rewrite Hv. split.
  - intros Hne. rewrite (string_eqb_false _ _ Hne). reflexivity.
  - intros ->. reflexivity.
Qed.

Lemma gen_style_fill_or_outline_witness :
  re.search_fill "stroke:none;fill:#000000;" = Some "#000000" /\
  fill_pattern "stroke:none;fill:#000000;" "#000000" /\
  ("#000000" <> "none" ->
   @gen_style sample_text "stroke:none;fill:#000000;" "#1F77B4" (127 # 255) =
     Ok ("fill:" +:+ "#1F77B4" +:+ ";stroke:none;opacity:" +:+ format_fixed 6 (127 # 255),
         "false")) /\
  ("#000000" = "none" ->
   @gen_style sample_text "stroke:none;fill:#000000;" "#1F77B4" (127 # 255) =
     Ok ("fill:none;stroke:" +:+ "#1F77B4" +:+ ";stroke-width:1;opacity:"
           +:+ format_fixed 6 (127 # 255),
         "true")).
Proof.
  split; [reflexivity|].
  apply (@gen_style_fill_or_outline sample_text "stroke:none;fill:#000000;" "#000000").
  reflexivity.
Defined.

(** Running the effect monad. *)
Lemma run_bind {A B} (m : M A) (f : A -> M B) (st : state) :
  run (m ≫= f) st =
  match run m st with
  | Ok (a, st') => run (f a) st'
  | Raise e => Raise e
  end.
Proof. reflexivity. Qed.

Lemma run_lift {A} (r : result A) (st : state) :
  run (lift r) st = match r with Ok a => Ok (a, st) | Raise e => Raise e end.
Proof. reflexivity. Qed.

Lemma run_mret {A} (a : A) (st : state) : run (mret a) st = Ok (a, st).
Proof. reflexivity. Qed.

Lemma has_literal_complete (p pre post : string) : has_literal p (pre +:+ p +:+ post) = true.
Proof.
  induction pre as [|c pre IH].
  - cbn [String.append]. destruct (p +:+ post) eqn:E; cbn [has_literal];
      rewrite <- E, literal_complete; reflexivity.
  - change (String c pre +:+ p +:+ post) with (String c (pre +:+ p +:+ post)).
    cbn [has_literal]. destruct (re.literal _ _); [reflexivity|exact IH].
Qed.

(** The boolean search for [fill:] decides [no_fill_property]. *)
Lemma no_fill_property_decide (s : string) :
  has_literal "fill:" s = false -> no_fill_property s.
Proof.
  intros Hs (pre & post & ->). rewrite has_literal_complete in Hs. discriminate.
Qed.

Section style_errors.

Context `{FloatText}.

Lemma gen_style_raises (old_sty layer_color : string) (layer_alpha : Q) :
  re.search_fill old_sty = None ->
  gen_style old_sty layer_color layer_alpha = Raise no_group.
Proof. intros Hs. unfold gen_style. rewrite Hs. reflexivity. Qed.

Lemma choose_color_cycle_default (opts : options) :
  color_cycle opts = "default" -> choose_color_cycle opts = Ok (Some default_color_cycle).
Proof. intros Hc. unfold choose_color_cycle. rewrite Hc. reflexivity. Qed.

(** The first layer's first rectangle is converted before anything else
    of the drawing: an exception raised there ends [effect]. *)
Lemma effect_first_rect_raises (opts : options) (size : Q)
    (layer : layer_element) (rest : list layer_element)
    (rect : gmap string string) (rects : list (gmap string string))
    (name x y h w s : string) :
  color_cycle opts = "default" ->
  layer_attrib layer !! qname "inkscape" "label" = Some name ->
  svg_rects layer = rect :: rects ->
  rect !! "x" = Some x -> rect !! "y" = Some y ->
  rect !! "height" = Some h -> rect !! "width" = Some w ->
  rect !! "style" = Some s ->
  re.search_fill s = None ->
  effect opts size (layer :: rest) = Raise no_group.
Proof.
  intros Hcyc Hname Hrects Hx Hy Hh Hw Hs Hnone.
  unfold effect, effect_body.
  rewrite run_bind, run_lift, (choose_color_cycle_default opts Hcyc).
  unfold enumerate. cbn [length seq combine forM].
  rewrite run_bind. unfold effect_layer at 1.
  rewrite run_bind, run_lift.
  change (cycle_color (Some default_color_cycle) 0) with (Ok "#1F77B47F" : result string).
  cbv iota. rewrite run_bind, run_lift.
  unfold get_layer_attribs, getitem. rewrite Hname.
  change (int16 (slice_last 2 "#1F77B47F")) with (Ok 127%Z : result Z).
  cbn [mbind result_bind]. cbv iota.
  rewrite run_bind. rewrite Hrects. cbn [forM]. rewrite run_bind.
  unfold effect_rect at 1.
  repeat (rewrite run_bind, run_lift; unfold getitem;
          rewrite ?Hx, ?Hy, ?Hh, ?Hw, ?Hs; cbv iota).
  cbn [colorRGB alpha]. rewrite gen_style_raises by exact Hnone.
  reflexivity.
Qed.

End style_errors.

(** C7. On a style string with no [fill:] in it, [gen_style] raises (the
    [AttributeError] of calling [group] on a failed search), and [effect],
    which calls it without a handler, ends with that exception; on a style
    string that contains a match of [fill:(value);] it raises nothing. *)
Theorem gen_style_parse_error `{FloatText}
    (old_sty layer_color : string) (layer_alpha : Q) :
  (no_fill_property old_sty ->
   gen_style old_sty layer_color layer_alpha = Raise no_group /\
   forall (opts : options) (size : Q) (layer : layer_element) (rest : list layer_element)
          (rect : gmap string string) (rects : list (gmap string string))
          (name x y h w : string),
     color_cycle opts = "default" ->
     layer_attrib layer !! qname "inkscape" "label" = Some name ->
     svg_rects layer = rect :: rects ->
     rect !! "x" = Some x -> rect !! "y" = Some y ->
     rect !! "height" = Some h -> rect !! "width" = Some w ->
     rect !! "style" = Some old_sty ->
     effect opts size (layer :: rest) = Raise no_group) /\
  ((exists v, fill_pattern old_sty v) ->
   exists new_sty outl : string,
     gen_style old_sty layer_color layer_alpha = Ok (new_sty, outl)).
Proof.
  split.
  - intros Hno. pose proof (no_fill_property_no_match _ Hno) as Hnone. split.
    + apply gen_style_raises. exact Hnone.
    + intros. eapply effect_first_rect_raises; eassumption.
  - intros [v Hv]. apply search_fill_complete in Hv. destruct Hv as [g Hg].
    unfold gen_style. rewrite Hg. destruct (negb _); eexists _, _; reflexivity.
Qed.

Lemma gen_style_parse_error_witness :
  (no_fill_property "stroke:#000000;stroke-width:2" /\
   @gen_style sample_text "stroke:#000000;stroke-width:2" "#1F77B4" (127 # 255)
     = Raise no_group /\
   @effect sample_text
     (Options 10 false false "default" "" [] [] [] [] []) 100
     [SvgLayer (<[qname "inkscape" "label" := "Layer 1"]> ∅)
        [<["x" := "0"]> (<["y" := "0"]> (<["height" := "5"]> (<["width" := "10"]>
           (<["style" := "stroke:#000000;stroke-width:2"]> ∅))))] [] [] []]
     = Raise no_group) /\
  ((exists v, fill_pattern "fill:none;stroke:#000000;" v) /\
   exists new_sty outl : string,
     @gen_style sample_text "fill:none;stroke:#000000;" "#1F77B4" (127 # 255)
       = Ok (new_sty, outl)).
Proof.
  assert (Hno : no_fill_property "stroke:#000000;stroke-width:2")
    by (apply no_fill_property_decide; reflexivity).
  assert (Hyes : exists v, fill_pattern "fill:none;stroke:#000000;" v).
  { exists "none", "", "stroke:#000000;". split; [reflexivity|]. split; [discriminate|].
    cbn. unfold re.newline. intuition discriminate. }
  split.
  - split; [exact Hno|].
    destruct (proj1 (@gen_style_parse_error sample_text
                       "stroke:#000000;stroke-width:2" "#1F77B4" (127 # 255)) Hno)
      as [Hraise Heffect].
    split; [exact Hraise|].
    eapply Heffect; reflexivity.
  - split; [exact Hyes|].
    exact (proj2 (@gen_style_parse_error sample_text
                    "fill:none;stroke:#000000;" "#1F77B4" (127 # 255)) Hyes).
Defined.

(** ** ColorCycleAssigner *)

Lemma string_length_append (p t : string) :
  String.length (p +:+ t) = (String.length p + String.length t)%nat.
Proof. induction p as [|c p IH]; cbn; [reflexivity|]. rewrite IH. reflexivity. Qed.

Lemma substring_all (t : string) : substring 0 (String.length t) t = t.
Proof. induction t as [|c t IH]; cbn; [reflexivity|]. rewrite IH. reflexivity. Qed.

Lemma substring_suffix (p t : string) :
  substring (String.length p) (String.length t) (p +:+ t) = t.
Proof.
  induction p as [|c p IH]; cbn.
  - apply substring_all.
  - exact IH.
Qed.

(** [(p + t)[-n:]] is [t] when [t] has [n] characters. *)
Lemma slice_last_append (n : nat) (p t : string) :
  String.length t = n -> slice_last n (p +:+ t) = t.
Proof.
  intros <-. unfold slice_last. rewrite string_length_append.
  replace (String.length p + String.length t - String.length t)%nat
    with (String.length p) by lia.
  apply substring_suffix.
Qed.

(** Every value from 0 to 255 prints as two hexadecimal digits that read
    back as the value. *)
Lemma format_02x_int_roundtrip (k : Z) :
  (0 <= k <= 255)%Z ->
  String.length (format_02x_int k) = 2%nat /\ int16 (format_02x_int k) = Ok k.
Proof.
  intros Hk.
  assert (Hall : forallb two_digit_roundtrip (seq 0 256) = true) by (vm_compute; reflexivity).
  rewrite forallb_forall in Hall.
  specialize (Hall (Z.to_nat k)).
  assert (Hin : In (Z.to_nat k) (seq 0 256)) by (apply in_seq; lia).
  specialize (Hall Hin). unfold two_digit_roundtrip in Hall.
  rewrite Z2Nat.id in Hall by lia.
  apply andb_prop in Hall. destruct Hall as [Hlen Hval].
  split; [apply Nat.eqb_eq; exact Hlen|].
  destruct (int16 (format_02x_int k)) as [z|]; [|discriminate].
  apply Z.eqb_eq in Hval. congruence.
Qed.

(** [int] of a non-negative float is its floor. *)
Lemma int_of_float_bounds (q : Q) (hi : Z) :
  (0 <= q)%Q -> (q <= inject_Z hi)%Q ->
  (0 <= int_of_float q <= hi)%Z /\ (inject_Z (int_of_float q) <= q)%Q.
Proof.
  destruct q as [a b]. unfold int_of_float, Qle, inject_Z. cbn. intros H0 Hhi.
  assert (Ha : (0 <= a)%Z) by lia.
  rewrite Z.quot_div_nonneg by lia.
  split; [split|].
  - apply Z.div_pos; lia.
  - apply Z.div_le_upper_bound; lia.
  - pose proof (Z.mul_div_le a (Z.pos b) ltac:(lia)). lia.
Qed.

(** C8. [rgba_conv] writes the opacity [A] of a colour [(R,G,B,A)], for [A]
    in [0,1], as the two hexadecimal digits of [int(A*100)], and appends
    [FF] to a colour [(R,G,B)]; [get_layer_attribs] reads the last two
    digits back and divides by 255.  Encoding [A] and decoding therefore
    gives [int(A*100)/255], which is below [A] for every [A > 0]; a colour
    without opacity decodes to [255/255]. *)
Theorem alpha_encode_decode (r g b : Z) (A : Q)
    (svg_layer : gmap string string) (name : string) :
  (0 <= A)%Q -> (A <= 1)%Q ->
  svg_layer !! qname "inkscape" "label" = Some name ->
  exists rgba rgb : string,
    rgba_conv [PyInt r; PyInt g; PyInt b; PyFloat A] = Ok rgba /\
    rgba_conv [PyInt r; PyInt g; PyInt b] = Ok rgb /\
    slice_last 2 rgba = format_02x_int (int_of_float (A * 100)) /\
    String.length (format_02x_int (int_of_float (A * 100))) = 2%nat /\
    slice_last 2 rgb = "FF" /\
    alpha <$> get_layer_attribs svg_layer rgba
      = Ok (inject_Z (int_of_float (A * 100)) / 255)%Q /\
    alpha <$> get_layer_attribs svg_layer rgb = Ok (inject_Z 255 / 255)%Q /\
    ((0 < A)%Q -> (inject_Z (int_of_float (A * 100)) / 255 < A)%Q).
Proof.
  intros H0 H1 Hname.
  assert (Hq0 : (0 <= A * 100)%Q) by (apply Qmult_le_0_compat; [exact H0|discriminate]).
  assert (Hq1 : (A * 100 <= inject_Z 100)%Q).
  { change (inject_Z 100) with (1 * 100)%Q.
    apply Qmult_le_compat_r; [exact H1|discriminate]. }
  destruct (int_of_float_bounds (A * 100) 100 Hq0 Hq1) as [Hk Hfloor].
  destruct (format_02x_int_roundtrip (int_of_float (A * 100)) ltac:(lia)) as [Hlen Hback].
  set (k := int_of_float (A * 100)) in *.
  set (prefix := "#" +:+ format_02x_int r +:+ format_02x_int g +:+ format_02x_int b).
  exists (prefix +:+ format_02x_int k), (prefix +:+ "FF").
  assert (Hlast : slice_last 2 (prefix +:+ format_02x_int k) = format_02x_int k)
    by (apply slice_last_append; exact Hlen).
  assert (HlastFF : slice_last 2 (prefix +:+ "FF") = "FF")
    by (apply slice_last_append; reflexivity).
  split; [reflexivity|]. split; [reflexivity|].
  split; [exact Hlast|]. split; [exact Hlen|]. split; [exact HlastFF|].
  split; [|split].
  - unfold get_layer_attribs, getitem. rewrite Hname, Hlast, Hback. reflexivity.
  - unfold get_layer_attribs, getitem. rewrite Hname, HlastFF. reflexivity.
  - intros Hpos. apply Qlt_shift_div_r; [reflexivity|].
    apply Qle_lt_trans with (A * 100)%Q; [exact Hfloor|].
    apply Qmult_lt_l; [exact Hpos|reflexivity].
Qed.

Lemma alpha_encode_decode_witness :
  exists rgba rgb : string,
    rgba_conv [PyInt 255; PyInt 0; PyInt 0; PyFloat (1 # 2)] = Ok rgba /\
    rgba_conv [PyInt 255; PyInt 0; PyInt 0] = Ok rgb /\
    slice_last 2 rgba = format_02x_int (int_of_float ((1 # 2) * 100)) /\
    String.length (format_02x_int (int_of_float ((1 # 2) * 100))) = 2%nat /\
    slice_last 2 rgb = "FF" /\
    alpha <$> get_layer_attribs (<[qname "inkscape" "label" := "Layer 1"]> ∅) rgba
      = Ok (inject_Z (int_of_float ((1 # 2) * 100)) / 255)%Q /\
    alpha <$> get_layer_attribs (<[qname "inkscape" "label" := "Layer 1"]> ∅) rgb
      = Ok (inject_Z 255 / 255)%Q /\
    ((0 < 1 # 2)%Q -> (inject_Z (int_of_float ((1 # 2) * 100)) / 255 < 1 # 2)%Q).
Proof.
  apply (alpha_encode_decode 255 0 0 (1 # 2)
           (<[qname "inkscape" "label" := "Layer 1"]> ∅) "Layer 1").
  - discriminate.
  - discriminate.
  - reflexivity.
Defined.

(** The scenario of the design document: red at half opacity is written as
    [#ff000032] and read back as opacity 50/255. *)
Example custom_red_half :
  rgba_conv [PyInt 255; PyInt 0; PyInt 0; PyFloat (1 # 2)] = Ok "#ff000032" /\
  alpha <$> get_layer_attribs (<[qname "inkscape" "label" := "Layer 1"]> ∅) "#ff000032"
    = Ok (50 # 255).
Proof. split; vm_compute; reflexivity. Qed.

(** Inverting a successful run of a sequence of commands. *)
Lemma run_bind_Ok {A B} (m : M A) (f : A -> M B) (st st2 : state) (b : B) :
  run (m ≫= f) st = Ok (b, st2) ->
  exists (a : A) (st1 : state), run m st = Ok (a, st1) /\ run (f a) st1 = Ok (b, st2).
Proof.
  rewrite run_bind. destruct (run m st) as [[a st1]|e]; [|discriminate].
  intros Hf. exists a, st1. split; [reflexivity|exact Hf].
Qed.

Lemma run_lift_Ok {A} (r : result A) (st st1 : state) (a : A) :
  run (lift r) st = Ok (a, st1) -> r = Ok a /\ st1 = st.
Proof. rewrite run_lift. destruct r; [|discriminate]. intros [= -> ->]. auto. Qed.

Ltac invert_run H :=
  let a := fresh "a" in
  let st := fresh "st" in
  let H1 := fresh "Hrun" in
  apply run_bind_Ok in H; destruct H as (a & st & H1 & H).

Tactic Notation "invert_bind" hyp(H) "as" ident(a) ident(st) ident(H1) :=
  apply run_bind_Ok in H; destruct H as (a & st & H1 & H).

(** A loop that completes has run its body once per element, in order. *)
Lemma forM_Ok {A B} (body : A -> M B) (xs : list A) (ys : list B) (st st' : state) :
  run (forM body xs) st = Ok (ys, st') ->
  length ys = length xs /\
  forall (i : nat) (y : B),
    ys !! i = Some y ->
    exists (x : A) (st1 st2 : state), xs !! i = Some x /\ run (body x) st1 = Ok (y, st2).
Proof.
  revert ys st. induction xs as [|x xs IH]; intros ys st Hrun.
  - cbn in Hrun. injection Hrun as <- <-. split; [reflexivity|]. intros i y Hy. discriminate.
  - cbn [forM] in Hrun. invert_run Hrun. invert_run Hrun.
    rewrite run_mret in Hrun. injection Hrun as <- <-.
    destruct (IH _ _ Hrun1) as [Hlen Hnth].
    split; [cbn; rewrite Hlen; reflexivity|].
    intros [|i] y Hy.
    + injection Hy as <-. exists x, st, st0. split; [reflexivity|exact Hrun0].
    + cbn in Hy. destruct (Hnth i y Hy) as (x' & s1 & s2 & Hx' & Hb).
      exists x', s1, s2. split; [exact Hx'|exact Hb].
Qed.

Lemma combine_seq_lookup {A} (l : list A) (start i j : nat) (x : A) :
  combine (seq start (length l)) l !! i = Some (j, x) -> j = (start + i)%nat /\ l !! i = Some x.
Proof.
  revert start i. induction l as [|a l IH]; intros start i Hl; [destruct i; discriminate|].
  cbn in Hl. destruct i as [|i].
  - injection Hl as <- <-. split; [lia|reflexivity].
  - cbn in Hl. apply IH in Hl. destruct Hl as [-> Hx]. split; [lia|exact Hx].
Qed.

Lemma enumerate_lookup {A} (l : list A) (i j : nat) (x : A) :
  enumerate l !! i = Some (j, x) -> j = i /\ l !! i = Some x.
Proof. unfold enumerate. intros Hl. apply combine_seq_lookup in Hl. exact Hl. Qed.

Lemma enumerate_length {A} (l : list A) : length (enumerate l) = length l.
Proof. unfold enumerate. rewrite length_combine, length_seq. lia. Qed.

Section color_cycle.

Context `{FloatText}.

Lemma cycle_color_Some (cycle : list string) (i : nat) :
  cycle <> [] ->
  exists c, cycle_color (Some cycle) i = Ok c /\ cycle !! (i mod length cycle)%nat = Some c.
Proof.
  intros Hne. unfold cycle_color.
  assert (Hlen : length cycle <> 0%nat) by (destruct cycle; [contradiction|discriminate]).
  destruct (Nat.eqb_spec (length cycle) 0) as [|_]; [contradiction|].
  unfold index.
  destruct (cycle !! (i mod length cycle)%nat) as [c|] eqn:E.
  - exists c. auto.
  - apply lookup_ge_None in E. pose proof (Nat.mod_upper_bound i _ Hlen). lia.
Qed.

(** The layer entry written by one iteration of the layer loop. *)
Lemma effect_layer_Ok (opts : options) (size : Q) (color_cycle : option (list string))
    (i : nat) (svg_layer : layer_element)
    (ely_layer : LAYER) (ely_layer_reference : LAYER_REFERENCE) (svg_layer' : layer_element)
    (st st' : state) :
  run (effect_layer opts size color_cycle (i, svg_layer)) st
    = Ok (ely_layer, ely_layer_reference, svg_layer', st') ->
  exists (layer_color : string) (svg_layer_attribs : layer_attribs),
    cycle_color color_cycle i = Ok layer_color /\
    get_layer_attribs (layer_attrib svg_layer) layer_color = Ok svg_layer_attribs /\
    fill_color ely_layer = colorRGB svg_layer_attribs /\
    fill_opacity ely_layer = str_float (alpha svg_layer_attribs) /\
    ref ely_layer_reference = layer_name svg_layer_attribs.
Proof.
  intros Hrun. unfold effect_layer in Hrun.
  invert_run Hrun. apply run_lift_Ok in Hrun0. destruct Hrun0 as [Hcol ->].
  invert_run Hrun. apply run_lift_Ok in Hrun0. destruct Hrun0 as [Hattr ->].
  do 4 invert_run Hrun. rewrite run_mret in Hrun. injection Hrun as <- <- <- <-.
  exists a, a0. auto.
Qed.

Lemma get_layer_attribs_Ok (svg_layer : gmap string string) (color : string)
    (attrs : layer_attribs) :
  get_layer_attribs svg_layer color = Ok attrs ->
  colorRGB attrs = slice_to 7 color /\
  exists a : Z, int16 (slice_last 2 color) = Ok a /\ alpha attrs = (inject_Z a / 255)%Q.
Proof.
  unfold get_layer_attribs. destruct (getitem _ _) as [nm|]; [|discriminate]. cbn.
  destruct (int16 _) as [a|]; [|discriminate]. cbn. intros [= <-]. cbn.
  split; [reflexivity|]. exists a. auto.
Qed.

End color_cycle.

(** C9. With a non-empty colour cycle of length [L], the expression that
    picks the colour of layer [i] never fails and yields [cycle[i mod L]],
    the same for [i] and [i + L]; in a run of [effect] that completes, the
    [i]-th layer entry (in document order) carries the colour and the
    opacity read from [cycle[i mod L]], and so does entry [i + L]. *)
Theorem layer_color_cycles `{FloatText} (opts : options) (size : Q)
    (svg_layer_list : list layer_element) (cycle : list string) :
  cycle <> [] ->
  (forall i : nat,
      exists c : string,
        cycle_color (Some cycle) i = Ok c /\
        cycle !! (i mod length cycle)%nat = Some c /\
        cycle_color (Some cycle) (i + length cycle) = Ok c) /\
  (choose_color_cycle opts = Ok (Some cycle) ->
   forall (out : list (LAYER * LAYER_REFERENCE * layer_element)) (log : list string),
     effect opts size svg_layer_list = Ok (out, log) ->
     length out = length svg_layer_list /\
     forall (i : nat) (entry : LAYER * LAYER_REFERENCE * layer_element),
       out !! i = Some entry ->
       (exists (c : string) (a : Z),
           cycle !! (i mod length cycle)%nat = Some c /\
           fill_color entry.1.1 = slice_to 7 c /\
           int16 (slice_last 2 c) = Ok a /\
           fill_opacity entry.1.1 = str_float (inject_Z a / 255)) /\
       (forall entry' : LAYER * LAYER_REFERENCE * layer_element,
           out !! (i + length cycle)%nat = Some entry' ->
           fill_color entry'.1.1 = fill_color entry.1.1 /\
           fill_opacity entry'.1.1 = fill_opacity entry.1.1)).
Proof.
  intros Hne.
  assert (Hlen : length cycle <> 0%nat) by (destruct cycle; [contradiction|discriminate]).
  assert (Hwrap : forall i, ((i + length cycle) mod length cycle = i mod length cycle)%nat).
  { intros i. rewrite <- (Nat.mul_1_l (length cycle)) at 1.
    rewrite Nat.Div0.mod_add. reflexivity. }
  split.
  - intros i. destruct (cycle_color_Some cycle i Hne) as (c & Hc & Hnth).
    exists c. split; [exact Hc|]. split; [exact Hnth|].
    destruct (cycle_color_Some cycle (i + length cycle) Hne) as (c' & Hc' & Hnth').
    rewrite Hwrap in Hnth'. congruence.
  - intros Hchoose out log Heff. unfold effect in Heff.
    destruct (run _ _) as [[out' st']|e] eqn:Hrun; [|discriminate].
    cbn in Heff. injection Heff as <- <-.
    unfold effect_body in Hrun. invert_run Hrun.
    apply run_lift_Ok in Hrun0. destruct Hrun0 as [Hcyc ->].
    rewrite Hchoose in Hcyc. injection Hcyc as <-.
    apply forM_Ok in Hrun. destruct Hrun as [Hlen' Hnth].
    rewrite enumerate_length in Hlen'. split; [exact Hlen'|].
    assert (Hentry : forall i entry, out' !! i = Some entry ->
      exists (c : string) (a : Z),
        cycle !! (i mod length cycle)%nat = Some c /\
        fill_color entry.1.1 = slice_to 7 c /\
        int16 (slice_last 2 c) = Ok a /\
        fill_opacity entry.1.1 = str_float (inject_Z a / 255)).
    { intros i [[ely_layer ely_ref] svg_layer'] Hi.
      destruct (Hnth i _ Hi) as ([j layer] & st1 & st2 & Hin & Hbody).
      apply enumerate_lookup in Hin. destruct Hin as [-> Hlayer].
      apply effect_layer_Ok in Hbody.
      destruct Hbody as (c & attrs & Hc & Hattrs & Hfc & Hfo & _).
      destruct (cycle_color_Some cycle i Hne) as (c' & Hc' & Hlook).
      rewrite Hc in Hc'. injection Hc' as <-.
      apply get_layer_attribs_Ok in Hattrs. destruct Hattrs as (Hrgb & a & Ha & Halpha).
      exists c, a. cbn. rewrite Hfc, Hfo, Hrgb, Halpha. auto. }
    intros i entry Hi. split; [exact (Hentry i entry Hi)|].
    intros entry' Hi'.
    destruct (Hentry i entry Hi) as (c & a & Hc & Hfc & Ha & Hfo).
    destruct (Hentry _ entry' Hi') as (c' & a' & Hc' & Hfc' & Ha' & Hfo').
    rewrite Hwrap in Hc'. rewrite Hc in Hc'. injection Hc' as <-.
    rewrite Ha in Ha'. injection Ha' as <-.
    rewrite Hfc, Hfc', Hfo, Hfo'. auto.
Qed.

Lemma layer_color_cycles_witness :
  default_color_cycle <> [] /\
  exists (out : list (LAYER * LAYER_REFERENCE * layer_element)) (log : list string),
    @choose_color_cycle (Options 10 false false "default" "" [] [] [] [] [])
      = Ok (Some default_color_cycle) /\
    @effect sample_text (Options 10 false false "default" "" [] [] [] [] []) 100
      (replicate 12 (SvgLayer (<[qname "inkscape" "label" := "Layer"]> ∅) [] [] [] []))
      = Ok (out, log) /\
    length out = 12%nat /\
    forall (i : nat) (entry : LAYER * LAYER_REFERENCE * layer_element),
      out !! i = Some entry ->
      (exists (c : string) (a : Z),
          default_color_cycle !! (i mod length default_color_cycle)%nat = Some c /\
          fill_color entry.1.1 = slice_to 7 c /\
          int16 (slice_last 2 c) = Ok a /\
          fill_opacity entry.1.1 = format_fixed 6 (inject_Z a / 255)) /\
      (forall entry' : LAYER * LAYER_REFERENCE * layer_element,
          out !! (i + length default_color_cycle)%nat = Some entry' ->
          fill_color entry'.1.1 = fill_color entry.1.1 /\
          fill_opacity entry'.1.1 = fill_opacity entry.1.1).
Proof.
  split; [discriminate|].
  set (layers := replicate 12 (SvgLayer (<[qname "inkscape" "label" := "Layer"]> ∅) [] [] [] [])).
  set (opts := Options 10 false false "default" "" [] [] [] [] []).
  assert (Hrun : exists out log, @effect sample_text opts 100 layers = Ok (out, log)).
  { vm_compute. eexists _, _. reflexivity. }
  destruct Hrun as (out & log & Hrun). exists out, log.
  split; [reflexivity|]. split; [exact Hrun|].
  destruct (@layer_color_cycles sample_text opts 100 layers default_color_cycle
              ltac:(discriminate)) as [_ Heffect].
  exact (Heffect eq_refl out log Hrun).
Defined.

(** ** PathCommandInterpreter *)

Lemma vertices_snoc (points2 : list points2_piece) (p : points2_piece) :
  vertices (points2 ++ [p]) = vertices points2 ++ piece_vertices p.
Proof.
  unfold vertices. rewrite map_app, concat_app. cbn [map concat].
  rewrite app_nil_r. reflexivity.
Qed.

Ltac other_letter :=
  repeat match goal with
         | Hne : ?l <> ?x |- context [String.eqb ?l ?x] =>
             rewrite (string_eqb_false l x Hne)
         end.

#[local] Opaque interpolate_curved_path.

(** One command: the vertices it appends. *)
Lemma path_step_Ok (n : Z) (c : cursor) (s : seg) (st : state) :
  (1 <= n)%Z -> well_formed s ->
  exists (c' : cursor) (st' : state) (chunk : list complex),
    run (path_step n c s) st = Ok (c', st') /\
    vertices (points2 c') = vertices (points2 c) ++ chunk /\
    length chunk = emitted (Z.to_nat n) (fst s) /\
    (is_curve (fst s) = true ->
     exists (tag : string) (ctrl : list complex),
       interpolate_curved_path (tag, PP c :: ctrl) n = Ok chunk).
Proof.
  intros Hn Hwf. destruct s as [letter args]. unfold well_formed in Hwf.
  cbn [fst snd] in *.
  destruct (linspace_samples n Hn) as (ts & Hlin & Hlen & _).
  destruct (interpolate_curved_path_linspace n ts Hn Hlin) as [HC HQ].
  assert (Hsize : forall (B : Q -> complex), length (B <$> ts) = Z.to_nat n)
    by (intros; rewrite length_fmap; exact Hlen).
  unfold path_step. cbn [fst snd].
  destruct (String.eqb_spec letter "M") as [->|HM].
  { destruct args as [|a0 [|a1 rest]]; cbn in Hwf; try lia.
    eexists _, _, _. split; [reflexivity|]. cbn [points2]. rewrite vertices_snoc.
    split; [reflexivity|]. split; [reflexivity|]. intros; discriminate. }
  destruct (String.eqb_spec letter "L") as [->|HL].
  { destruct args as [|a0 [|a1 rest]]; cbn in Hwf; try lia.
    eexists _, _, _. split; [reflexivity|]. cbn [points2]. rewrite vertices_snoc.
    split; [reflexivity|]. split; [reflexivity|]. intros; discriminate. }
  destruct (String.eqb_spec letter "H") as [->|HH].
  { destruct args as [|a0 rest]; cbn in Hwf; try lia.
    eexists _, _, _. split; [reflexivity|]. cbn [points2]. rewrite vertices_snoc.
    split; [reflexivity|]. split; [reflexivity|]. intros; discriminate. }
  destruct (String.eqb_spec letter "V") as [->|HV].
  { destruct args as [|a0 rest]; cbn in Hwf; try lia.
    eexists _, _, _. split; [reflexivity|]. cbn [points2]. rewrite vertices_snoc.
    split; [reflexivity|]. split; [reflexivity|]. intros; discriminate. }
  destruct (String.eqb_spec letter "C") as [->|HCl].
  { destruct args as [|a0 [|a1 [|a2 [|a3 [|a4 [|a5 rest]]]]]]; cbn in Hwf; try lia.
    pose proof (HC (PP c) (Complex a0 a1) (Complex a2 a3) (Complex a4 a5)) as Hi.
    pose proof (Hsize (cubic_B (PP c) (Complex a0 a1) (Complex a2 a3) (Complex a4 a5))) as Hl.
    eexists _, _, _. split.
    { repeat (rewrite run_bind, run_lift; cbn [index lookup list_lookup]).
      rewrite Hi. reflexivity. }
    cbn [points2]. rewrite vertices_snoc.
    split; [reflexivity|]. split; [exact Hl|]. intros _. eexists _, _. exact Hi. }
  destruct (String.eqb_spec letter "S") as [->|HS].
  { destruct args as [|a0 [|a1 [|a2 [|a3 rest]]]]; cbn in Hwf; try lia.
    pose proof (HC (PP c) (csub (cscale 2 (PP c)) (CC c)) (Complex a0 a1) (Complex a2 a3))
      as Hi.
    pose proof (Hsize (cubic_B (PP c) (csub (cscale 2 (PP c)) (CC c)) (Complex a0 a1)
                         (Complex a2 a3))) as Hl.
    eexists _, _, _. split.
    { repeat (rewrite run_bind, run_lift; cbn [index lookup list_lookup]).
      rewrite Hi. reflexivity. }
    cbn [points2]. rewrite vertices_snoc.
    split; [reflexivity|]. split; [exact Hl|]. intros _. eexists _, _. exact Hi. }
  destruct (String.eqb_spec letter "Q") as [->|HQl].
  { destruct args as [|a0 [|a1 [|a2 [|a3 rest]]]]; cbn in Hwf; try lia.
    pose proof (HQ (PP c) (Complex a0 a1) (Complex a2 a3)) as Hi.
    pose proof (Hsize (quadratic_B (PP c) (Complex a0 a1) (Complex a2 a3))) as Hl.
    eexists _, _, _. split.
    { repeat (rewrite run_bind, run_lift; cbn [index lookup list_lookup]).
      rewrite Hi. reflexivity. }
    cbn [points2]. rewrite vertices_snoc.
    split; [reflexivity|]. split; [exact Hl|]. intros _. eexists _, _. exact Hi. }
  destruct (String.eqb_spec letter "T") as [->|HT].
  { destruct args as [|a0 [|a1 rest]]; cbn in Hwf; try lia.
    pose proof (HQ (PP c) (csub (cscale 2 (PP c)) (CC c)) (Complex a0 a1)) as Hi.
    pose proof (Hsize (quadratic_B (PP c) (csub (cscale 2 (PP c)) (CC c)) (Complex a0 a1)))
      as Hl.
    eexists _, _, _. split.
    { repeat (rewrite run_bind, run_lift; cbn [index lookup list_lookup]).
      rewrite Hi. reflexivity. }
    cbn [points2]. rewrite vertices_snoc.
    split; [reflexivity|]. split; [exact Hl|]. intros _. eexists _, _. exact Hi. }
  destruct (String.eqb_spec letter "A") as [->|HA].
  { destruct args as [|a0 [|a1 [|a2 [|a3 [|a4 [|a5 [|a6 rest]]]]]]]; cbn in Hwf; try lia.
    eexists _, _, _. split; [reflexivity|]. cbn [points2]. rewrite vertices_snoc.
    split; [reflexivity|]. split; [reflexivity|]. intros; discriminate. }
  assert (Hnone : emitted (Z.to_nat n) letter = 0%nat /\ is_curve letter = false).
  { unfold emitted, is_point, is_curve. other_letter. auto. }
  destruct Hnone as [Hem Hcur].
  destruct (String.eqb_spec letter "Z") as [->|HZ].
  { eexists _, _, []. split; [reflexivity|]. cbn [points2]. rewrite app_nil_r.
    split; [reflexivity|]. split; [reflexivity|]. intros; discriminate. }
  exists c, st, []. split; [reflexivity|]. rewrite app_nil_r.
  split; [reflexivity|]. split; [symmetry; exact Hem|]. rewrite Hcur. discriminate.
Qed.

#[local] Transparent interpolate_curved_path.

Lemma vertex_formula_cons (n : nat) (s : seg) (segs : list seg) :
  vertex_formula n (s :: segs) = (emitted n (fst s) + vertex_formula n segs)%nat.
Proof.
  destruct s as [letter args]. unfold vertex_formula, emitted, is_point, is_curve.
  cbn [count fst].
  destruct (String.eqb_spec letter "M") as [->|?]; [cbn; lia|].
  destruct (String.eqb_spec letter "L") as [->|?]; [cbn; lia|].
  destruct (String.eqb_spec letter "H") as [->|?]; [cbn; lia|].
  destruct (String.eqb_spec letter "V") as [->|?]; [cbn; lia|].
  destruct (String.eqb_spec letter "A") as [->|?]; [cbn; lia|].
  destruct (String.eqb_spec letter "C") as [->|?]; [cbn; lia|].
  destruct (String.eqb_spec letter "S") as [->|?]; [cbn; lia|].
  destruct (String.eqb_spec letter "Q") as [->|?]; [cbn; lia|].
  destruct (String.eqb_spec letter "T") as [->|?]; [cbn; lia|].
  cbn. lia.
Qed.

Lemma foldM_app {A B} (body : A -> B -> M A) (acc : A) (xs ys : list B) (st : state) :
  run (foldM body acc (xs ++ ys)) st =
  match run (foldM body acc xs) st with
  | Ok (acc', st') => run (foldM body acc' ys) st'
  | Raise e => Raise e
  end.
Proof.
  revert acc st. induction xs as [|x xs IH]; intros acc st; [reflexivity|].
  cbn [app foldM]. rewrite !run_bind.
  destruct (run (body acc x) st) as [[acc1 st1]|e]; [apply IH|reflexivity].
Qed.

(** The loop over well-formed commands completes, whatever the cursor it
    starts from, and appends the vertices the formula counts. *)
Lemma foldM_path_step_Ok (n : Z) (segs : list seg) (c : cursor) (st : state) :
  (1 <= n)%Z -> Forall well_formed segs ->
  exists (c' : cursor) (st' : state) (more : list complex),
    run (foldM (path_step n) c segs) st = Ok (c', st') /\
    vertices (points2 c') = vertices (points2 c) ++ more /\
    length more = vertex_formula (Z.to_nat n) segs.
Proof.
  intros Hn Hwf. revert c st.
  induction Hwf as [|s segs Hs Hsegs IH]; intros c st.
  - exists c, st, []. split; [reflexivity|]. rewrite app_nil_r.
    split; [reflexivity|]. unfold vertex_formula. cbn. lia.
  - destruct (path_step_Ok n c s st Hn Hs) as (c1 & st1 & chunk & Hstep & Hv & Hl & _).
    destruct (IH c1 st1) as (c' & st' & more & Hrun & Hv' & Hl').
    exists c', st', (chunk ++ more). split.
    + cbn [foldM]. rewrite run_bind, Hstep. exact Hrun.
    + split.
      * rewrite Hv', Hv, <- app_assoc. reflexivity.
      * rewrite length_app, vertex_formula_cons, Hl, Hl'. reflexivity.
Qed.

(** C2. For a sampling count [n >= 1] and commands that carry the arguments
    of their letters, the interpreter completes and the number of vertices
    it has written is (#M + #L + #H + #V + #A) + n * (#C + #S + #Q + #T).
    Every command appends its vertices after those of the commands before
    it and before those of the commands after it: one for a point command,
    the [n] samples of [interpolate_curved_path] on the curve that starts
    at the current point for a curve command (the start point itself is not
    among them), none for [Z] and for any other letter. *)
Theorem interpret_path_vertices (n : Z) (segs : list seg) (st : state) :
  (1 <= n)%Z -> Forall well_formed segs ->
  exists (c : cursor) (st' : state),
    run (interpret_path n segs) st = Ok (c, st') /\
    length (vertices (points2 c)) =
      ((count "M" segs + count "L" segs + count "H" segs + count "V" segs + count "A" segs)
       + Z.to_nat n * (count "C" segs + count "S" segs + count "Q" segs + count "T" segs))%nat /\
    forall (before : list seg) (s : seg) (after : list seg),
      segs = before ++ s :: after ->
      exists (c0 : cursor) (st0 : state) (c1 : cursor) (st1 : state)
             (chunk rest : list complex),
        run (interpret_path n before) st = Ok (c0, st0) /\
        run (path_step n c0 s) st0 = Ok (c1, st1) /\
        length (vertices (points2 c0)) = vertex_formula (Z.to_nat n) before /\
        vertices (points2 c1) = vertices (points2 c0) ++ chunk /\
        length chunk = emitted (Z.to_nat n) (fst s) /\
        (is_curve (fst s) = true ->
         exists (tag : string) (ctrl : list complex),
           interpolate_curved_path (tag, PP c0 :: ctrl) n = Ok chunk) /\
        vertices (points2 c) = vertices (points2 c0) ++ chunk ++ rest /\
        length rest = vertex_formula (Z.to_nat n) after.
Proof.
  intros Hn Hwf. unfold interpret_path.
  destruct (foldM_path_step_Ok n segs cursor0 st Hn Hwf) as (c & st' & more & Hrun & Hv & Hl).
  exists c, st'. split; [exact Hrun|]. split.
  - rewrite Hv. cbn [cursor0 points2 vertices map concat app]. exact Hl.
  - intros before s after ->.
    apply Forall_app in Hwf. destruct Hwf as [Hbefore Hrest].
    apply Forall_cons in Hrest. destruct Hrest as [Hs Hafter].
    destruct (foldM_path_step_Ok n before cursor0 st Hn Hbefore)
      as (c0 & st0 & v0 & Hrun0 & Hv0 & Hl0).
    destruct (path_step_Ok n c0 s st0 Hn Hs) as (c1 & st1 & chunk & Hstep & Hv1 & Hl1 & Hcurve).
    destruct (foldM_path_step_Ok n after c1 st1 Hn Hafter)
      as (c2 & st2 & rest & Hrun2 & Hv2 & Hl2).
    rewrite foldM_app, Hrun0 in Hrun. cbn [foldM] in Hrun.
    rewrite run_bind, Hstep, Hrun2 in Hrun. injection Hrun as <- <-.
    exists c0, st0, c1, st1, chunk, rest.
    split; [exact Hrun0|]. split; [exact Hstep|]. split.
    { rewrite Hv0. cbn [cursor0 points2 vertices map concat app]. exact Hl0. }
    split; [exact Hv1|]. split; [exact Hl1|]. split; [exact Hcurve|]. split.
    { rewrite Hv2, Hv1, <- app_assoc. reflexivity. }
    exact Hl2.
Qed.

Lemma interpret_path_vertices_witness :
  let segs : list seg :=
    [("M", [0; 0]%Q); ("C", [0; 10; 10; 10; 10; 0]%Q); ("L", [20; 0]%Q);
     ("Z", []); ("X", [1]%Q)] in
  (1 <= 2)%Z /\ Forall well_formed segs /\
  exists (c : cursor) (st' : state),
    run (interpret_path 2 segs) (State None []) = Ok (c, st') /\
    length (vertices (points2 c)) =
      ((count "M" segs + count "L" segs + count "H" segs + count "V" segs + count "A" segs)
       + Z.to_nat 2 * (count "C" segs + count "S" segs + count "Q" segs + count "T" segs))%nat /\
    forall (before : list seg) (s : seg) (after : list seg),
      segs = before ++ s :: after ->
      exists (c0 : cursor) (st0 : state) (c1 : cursor) (st1 : state)
             (chunk rest : list complex),
        run (interpret_path 2 before) (State None []) = Ok (c0, st0) /\
        run (path_step 2 c0 s) st0 = Ok (c1, st1) /\
        length (vertices (points2 c0)) = vertex_formula (Z.to_nat 2) before /\
        vertices (points2 c1) = vertices (points2 c0) ++ chunk /\
        length chunk = emitted (Z.to_nat 2) (fst s) /\
        (is_curve (fst s) = true ->
         exists (tag : string) (ctrl : list complex),
           interpolate_curved_path (tag, PP c0 :: ctrl) 2 = Ok chunk) /\
        vertices (points2 c) = vertices (points2 c0) ++ chunk ++ rest /\
        length rest = vertex_formula (Z.to_nat 2) after.
Proof.
  intros segs.
  assert (Hwf : Forall well_formed segs)
    by (repeat constructor; unfold well_formed; cbn; lia).
  split; [lia|]. split; [exact Hwf|].
  apply (interpret_path_vertices 2 segs (State None [])); [lia|exact Hwf].
Defined.

(** The scenario of the design document: a move and one cubic curve with a
    single sample give the start vertex and the end point of the curve. *)
Example scenario_cubic_one_sample :
  (fun r => vertices (points2 r.1)) <$>
    run (interpret_path 1 [("M", [0; 0]%Q); ("C", [0; 10; 10; 10; 10; 0]%Q)]) (State None [])
  = Ok [Complex 0 0; Complex 10 0].
Proof. vm_compute. reflexivity. Qed.

(** ** The variable [closed] across the paths of a run *)

Lemma unchanged_mret {A} (a : A) : unchanged (mret a).
Proof. intros st a' st'. rewrite run_mret. intros [= _ <-]. reflexivity. Qed.

Lemma unchanged_lift {A} (r : result A) : unchanged (lift r).
Proof. intros st a st' Hrun. apply run_lift_Ok in Hrun. tauto. Qed.

Lemma unchanged_bind {A B} (m : M A) (f : A -> M B) :
  unchanged m -> (forall a, unchanged (f a)) -> unchanged (m ≫= f).
Proof.
  intros Hm Hf st b st' Hrun. invert_run Hrun.
  apply Hm in Hrun0. subst. apply Hf in Hrun. exact Hrun.
Qed.

Ltac unchanged_tac :=
  repeat first
    [ apply unchanged_mret
    | apply unchanged_lift
    | apply unchanged_bind; [|intros ?] ].

(** A command other than [Z] leaves [closed] as it was; [Z] sets it. *)
Lemma path_step_state (n : Z) (c c' : cursor) (s : seg) (st st' : state) :
  run (path_step n c s) st = Ok (c', st') ->
  st' = if String.eqb (fst s) "Z" then State (Some true) (errors st) else st.
Proof.
  unfold path_step.
  repeat match goal with
         | |- context [if String.eqb (fst s) ?x then _ else _] =>
             lazymatch x with
             | "Z" => fail
             | _ => destruct (String.eqb_spec (fst s) x) as [->|?];
                    [ let H := fresh in
                      intros H; change (String.eqb _ "Z") with false; cbv iota;
                      revert H; revert st c' st'; unchanged_tac | ]
             end
         end.
  destruct (String.eqb (fst s) "Z").
  - cbn. intros [= _ <-]. reflexivity.
  - rewrite run_mret. intros [= _ <-]. reflexivity.
Qed.

(** After a path has been interpreted, [closed] is true if the path has a
    [Z]; otherwise it is whatever the paths before left. *)
Lemma interpret_path_state (n : Z) (segs : list seg) (c : cursor) (st st' : state) :
  run (interpret_path n segs) st = Ok (c, st') ->
  st' = if (count "Z" segs =? 0)%nat then st else State (Some true) (errors st).
Proof.
  unfold interpret_path. generalize cursor0. revert st.
  induction segs as [|s segs IH]; intros st c0 Hrun.
  - cbn in Hrun. injection Hrun as _ <-. reflexivity.
  - cbn [foldM] in Hrun. invert_run Hrun.
    apply path_step_state in Hrun0. apply IH in Hrun. subst st'. subst st0.
    cbn [count]. destruct (String.eqb (fst s) "Z"); cbn [Nat.add Nat.eqb];
      destruct (count "Z" segs =? 0)%nat; reflexivity.
Qed.

Lemma area_fast_path_closed (points : list float64) (st st' : state) (a : string) :
  run (area_fast_path points) st = Ok (a, st') -> closed st' = closed st.
Proof.
  unfold area_fast_path. destruct (length points <? 4)%nat.
  - cbn. intros [= _ <-]. reflexivity.
  - intros Hrun. do 4 (invert_run Hrun; apply run_lift_Ok in Hrun0; destruct Hrun0 as [_ ->]).
    destruct (negb _); rewrite run_mret in Hrun; injection Hrun as _ <-; reflexivity.
Qed.

Section closed_variable.

Context `{FloatText}.
Variable opts : options.

(** What one iteration of the loop over paths does with [closed]: it
    reads the value left by this and all earlier paths, and the element
    written is decided by that value alone. *)
Lemma effect_path_Ok (attrs : layer_attribs) (p p' : path_element)
    (shape : ely_shape) (st st' : state) :
  run (effect_path opts attrs p) st = Ok (shape, p', st') ->
  closed st' = (if (count "Z" (to_arrays p) =? 0)%nat then closed st else Some true) /\
  ((closed st' = Some true /\ shape_tag shape = "POLYGON") \/
   (closed st' = Some false /\ shape_tag shape = "LINES")).
Proof.
  intros Hrun. unfold effect_path in Hrun.
  invert_bind Hrun as d st1 Hd. apply run_lift_Ok in Hd. destruct Hd as [_ ->].
  invert_bind Hrun as s st1 Hs. apply run_lift_Ok in Hs. destruct Hs as [_ ->].
  invert_bind Hrun as c st1 Hc. apply interpret_path_state in Hc.
  invert_bind Hrun as a st2 Ha.
  assert (Hst2 : closed st2 = closed st1).
  { destruct (calc_rot opts).
    - eapply area_fast_path_closed. exact Ha.
    - rewrite run_mret in Ha. injection Ha as _ <-. reflexivity. }
  invert_bind Hrun as is_closed st3 Hread.
  unfold read_closed in Hread. cbn [run] in Hread.
  destruct (closed st2) as [b|] eqn:Hb; [|discriminate].
  injection Hread as <- <-.
  invert_bind Hrun as styled st4 Hbranch.
  destruct styled as [ns sh]. rewrite run_mret in Hrun. injection Hrun as <- _ <-.
  assert (Hbr : st4 = st2 /\
                shape_tag sh = if b then "POLYGON" else "LINES").
  { destruct b.
    - invert_bind Hbranch as styled st5 Hgen.
      apply run_lift_Ok in Hgen. destruct Hgen as [_ ->].
      destruct styled as [ns' o]. rewrite run_mret in Hbranch.
      injection Hbranch as _ <- <-. auto.
    - rewrite run_mret in Hbranch. injection Hbranch as _ <- <-. auto. }
  destruct Hbr as [-> Htag].
  split.
  - transitivity (closed st1); [congruence|]. rewrite Hc.
    destruct (count "Z" (to_arrays p) =? 0)%nat; reflexivity.
  - rewrite Htag. destruct b; [left|right]; auto.
Qed.

End closed_variable.

(** A loop that completes keeps an invariant of the state that its body
    keeps, and every result has what the body guarantees. *)
Lemma forM_invariant {A B} (P : state -> Prop) (R : B -> Prop)
    (body : A -> M B) (xs : list A) (ys : list B) (st st' : state) :
  (forall x st1 y st2, P st1 -> run (body x) st1 = Ok (y, st2) -> P st2 /\ R y) ->
  P st -> run (forM body xs) st = Ok (ys, st') -> P st' /\ Forall R ys.
Proof.
  intros Hbody. revert ys st. induction xs as [|x xs IH]; intros ys st HP Hrun.
  - cbn in Hrun. injection Hrun as <- <-. split; [exact HP|constructor].
  - cbn [forM] in Hrun.
    invert_bind Hrun as y st1 Hy. invert_bind Hrun as ys' st2 Hys.
    rewrite run_mret in Hrun. injection Hrun as <- <-.
    destruct (Hbody _ _ _ _ HP Hy) as [HP1 HR].
    destruct (IH _ _ HP1 Hys) as [HP2 HRs].
    split; [exact HP2|constructor; assumption].
Qed.

Ltac lift_step H :=
  let H1 := fresh "Hlift" in
  apply run_bind_Ok in H; destruct H as (? & ? & H1 & H);
  apply run_lift_Ok in H1; destruct H1 as [_ ->].

Section no_lines.

Context `{FloatText}.
Variable opts : options.

Lemma effect_rect_Ok (attrs : layer_attribs) (rect rect' : gmap string string)
    (shape : ely_shape) (st st' : state) :
  run (effect_rect opts attrs rect) st = Ok (shape, rect', st') ->
  st' = st /\ shape_tag shape = "RECT".
Proof.
  intros Hrun. unfold effect_rect in Hrun.
  do 6 lift_step Hrun. destruct x4 as [ns o]. lift_step Hrun.
  rewrite run_mret in Hrun. injection Hrun as <- _ <-. auto.
Qed.

Lemma effect_ellipse_Ok (attrs : layer_attribs) (ellipse ellipse' : gmap string string)
    (shape : ely_shape) (st st' : state) :
  run (effect_ellipse opts attrs ellipse) st = Ok (shape, ellipse', st') ->
  st' = st /\ shape_tag shape = "ELLIPSE".
Proof.
  intros Hrun. unfold effect_ellipse in Hrun.
  do 6 lift_step Hrun. destruct x4 as [ns o]. lift_step Hrun.
  rewrite run_mret in Hrun. injection Hrun as <- _ <-. auto.
Qed.

Lemma effect_circle_Ok (attrs : layer_attribs) (circle circle' : gmap string string)
    (shape : ely_shape) (st st' : state) :
  run (effect_circle opts attrs circle) st = Ok (shape, circle', st') ->
  st' = st /\ shape_tag shape = "CIRCLE".
Proof.
  intros Hrun. unfold effect_circle in Hrun.
  do 5 lift_step Hrun. destruct x3 as [ns o].
  rewrite run_mret in Hrun. injection Hrun as <- _ <-. auto.
Qed.

(** As long as [closed] is unbound or true, a path that is converted is
    written as [POLYGON], and [closed] stays unbound or true. *)
Lemma effect_path_never_false (attrs : layer_attribs) (p : path_element)
    (y : ely_shape * path_element) (st st' : state) :
  never_false st -> run (effect_path opts attrs p) st = Ok (y, st') ->
  never_false st' /\ shape_tag y.1 = "POLYGON".
Proof.
  intros Hnf Hrun. destruct y as [shape p'].
  apply effect_path_Ok in Hrun. destruct Hrun as [Hst [[Ht Htag]|[Hf _]]].
  - split; [|exact Htag]. unfold never_false. rewrite Ht. discriminate.
  - exfalso. rewrite Hf in Hst.
    destruct (count "Z" (to_arrays p) =? 0)%nat; [|discriminate].
    apply Hnf. symmetry. exact Hst.
Qed.

Lemma effect_layer_never_false (size : Q) (color_cycle : option (list string))
    (entry : nat * layer_element) (y : LAYER * LAYER_REFERENCE * layer_element)
    (st st' : state) :
  never_false st -> run (effect_layer opts size color_cycle entry) st = Ok (y, st') ->
  never_false st' /\ Forall not_LINES (children y.1.2).
Proof.
  intros Hnf Hrun. destruct entry as [i svg_layer]. unfold effect_layer in Hrun.
  do 2 lift_step Hrun.
  invert_bind Hrun as rects st1 Hrects.
  invert_bind Hrun as ellipses st2 Hellipses.
  invert_bind Hrun as circles st3 Hcircles.
  invert_bind Hrun as paths st4 Hpaths.
  rewrite run_mret in Hrun. injection Hrun as <- <-. cbn [fst snd children].
  apply (forM_invariant never_false (fun y => not_LINES y.1)) in Hrects;
    [|intros ? ? [? ?] ? ? Hb; apply effect_rect_Ok in Hb; destruct Hb as [-> Ht];
      split; [assumption|]; unfold not_LINES; cbn; rewrite Ht; discriminate
     |exact Hnf].
  destruct Hrects as [Hnf1 Hr].
  apply (forM_invariant never_false (fun y => not_LINES y.1)) in Hellipses;
    [|intros ? ? [? ?] ? ? Hb; apply effect_ellipse_Ok in Hb; destruct Hb as [-> Ht];
      split; [assumption|]; unfold not_LINES; cbn; rewrite Ht; discriminate
     |exact Hnf1].
  destruct Hellipses as [Hnf2 He].
  apply (forM_invariant never_false (fun y => not_LINES y.1)) in Hcircles;
    [|intros ? ? [? ?] ? ? Hb; apply effect_circle_Ok in Hb; destruct Hb as [-> Ht];
      split; [assumption|]; unfold not_LINES; cbn; rewrite Ht; discriminate
     |exact Hnf2].
  destruct Hcircles as [Hnf3 Hc].
  apply (forM_invariant never_false (fun y => not_LINES y.1)) in Hpaths;
    [|intros ? ? ? ? Hn Hb; destruct (effect_path_never_false _ _ _ _ _ Hn Hb) as [Hn' Ht];
      split; [assumption|]; unfold not_LINES; rewrite Ht; discriminate
     |exact Hnf3].
  destruct Hpaths as [Hnf4 Hp].
  split; [exact Hnf4|].
  rewrite !Forall_app. rewrite !Forall_fmap. auto.
Qed.

(** X4. No run of [effect] writes a [LINES] element: [closed] is unbound when
    the run starts and nothing ever assigns it a false value, so the
    branch that writes [LINES] is never taken. *)
Lemma effect_writes_no_LINES (size : Q) (svg_layer_list : list layer_element)
    (out : list (LAYER * LAYER_REFERENCE * layer_element)) (log : list string) :
  effect opts size svg_layer_list = Ok (out, log) ->
  Forall (fun entry => Forall not_LINES (children entry.1.2)) out.
Proof.
  unfold effect. destruct (run _ _) as [[out' st']|e] eqn:Hrun; [|discriminate].
  cbn. intros [= <- <-]. unfold effect_body in Hrun. lift_step Hrun.
  apply (forM_invariant never_false
           (fun entry => Forall not_LINES (children entry.1.2))) in Hrun.
  - tauto.
  - intros. eapply effect_layer_never_false; eassumption.
  - unfold never_false. discriminate.
Qed.

End no_lines.

(** C1 (the program departs from it). A path with no [Z] is not written as
    [LINES]: [closed] is assigned only by a [Z] and is neither initialised
    nor reset between paths.  After a path with a [Z], in the same layer or
    in an earlier one, the open path is written as [POLYGON]; when no path
    before it had a [Z], the run ends with [UnboundLocalError]. *)
Theorem closed_flag_carries_over `{FloatText} :
  count "Z" (to_arrays (open_triangle "fill:#000000;")) = 0%nat /\
  emitted_tags
    (effect default_options 100
       [layer_of [closed_triangle "fill:#000000;"; open_triangle "fill:#000000;"]])
    = Ok [["POLYGON"; "POLYGON"]] /\
  emitted_tags
    (effect default_options 100
       [layer_of [closed_triangle "fill:#000000;"]; layer_of [open_triangle "fill:#000000;"]])
    = Ok [["POLYGON"]; ["POLYGON"]] /\
  effect default_options 100 [layer_of [open_triangle "fill:#000000;"]]
    = Raise (UnboundLocalError "closed").
Proof. repeat split; vm_compute; reflexivity. Qed.

(** C10 (the program departs from it). An open path whose style has no
    [fill] is not converted without error: alone it ends the run with
    [UnboundLocalError]; after a closed path it is treated as closed, its
    style is parsed, and the run ends with the error of the style parser,
    exactly as for a closed path with that style. *)
Theorem open_path_style_is_parsed `{FloatText} :
  re.search_fill "stroke:#000000;stroke-width:1" = None /\
  effect default_options 100 [layer_of [open_triangle "stroke:#000000;stroke-width:1"]]
    = Raise (UnboundLocalError "closed") /\
  effect default_options 100
    [layer_of [closed_triangle "fill:#000000;"; open_triangle "stroke:#000000;stroke-width:1"]]
    = Raise no_group /\
  effect default_options 100 [layer_of [closed_triangle "stroke:#000000;stroke-width:1"]]
    = Raise no_group.
Proof. repeat split; vm_compute; reflexivity. Qed.

(** ** ShapeClassifier: the direction of a path *)

Lemma Qeq_bool_false_iff (a b : Q) : Qeq_bool a b = false <-> ~ (a == b)%Q.
Proof.
  split.
  - intros Hf Heq. apply Qeq_bool_iff in Heq. congruence.
  - intros Hne. destruct (Qeq_bool a b) eqn:E; [|reflexivity].
    apply Qeq_bool_iff in E. contradiction.
Qed.

(** Rounding to the nearest integer stays within one half. *)
Lemma Rround_half_even_close (x : R) :
  (Rabs (IZR (Rround_half_even x) - x) <= 1 / 2)%R.
Proof.
  unfold Rround_half_even.
  pose proof (base_fp x) as [Hge Hlt].
  assert (Hx : (x = IZR (Int_part x) + frac_part x)%R) by (unfold frac_part; Lra.lra).
  set (f := Int_part x) in *. set (r := frac_part x) in *.
  destruct (Rlt_dec r (1 / 2)) as [Hlo|Hlo].
  - rewrite Hx. apply Rabs_le. Lra.lra.
  - destruct (Rlt_dec (1 / 2) r) as [Hhi|Hhi].
    + rewrite plus_IZR, Hx. apply Rabs_le. Lra.lra.
    + destruct (Z.even f).
      * rewrite Hx. apply Rabs_le. Lra.lra.
      * rewrite plus_IZR, Hx. apply Rabs_le. Lra.lra.
Qed.

Lemma Rround_half_even_nonneg (x : R) : (0 <= x)%R -> (0 <= Rround_half_even x)%Z.
Proof.
  intros Hx. unfold Rround_half_even.
  assert (Hf : (0 <= Int_part x)%Z).
  { pose proof (base_Int_part x) as [Hle Hgt].
    apply le_IZR. apply Rnot_lt_le. intros Hneg.
    assert (Hz : (Int_part x <= -1)%Z) by (apply lt_IZR in Hneg; lia).
    apply IZR_le in Hz. Lra.lra. }
  destruct (Rlt_dec _ _); [exact Hf|].
  destruct (Rlt_dec _ _); [lia|]. destruct (Z.even _); lia.
Qed.

Lemma value_fsub (x y : float64) : (value (fsub x y) == value x - value y)%Q.
Proof.
  unfold fsub. destruct (Qeq_bool (value x - value y) 0) eqn:E; [|reflexivity].
  apply Qeq_bool_iff in E. rewrite E. destruct x, y; reflexivity.
Qed.

Lemma value_fdiv (x y : float64) : (value (fdiv x y) == value x / value y)%Q.
Proof.
  unfold fdiv. destruct (Qeq_bool (value x) 0) eqn:E; [|reflexivity].
  apply Qeq_bool_iff in E. rewrite E.
  destruct (xorb _ _); cbn [signed_zero value]; unfold Qdiv; rewrite Qmult_0_l; reflexivity.
Qed.

Lemma sign_bit_Finite (q : Q) : sign_bit (Finite q) = true <-> (q < 0)%Q.
Proof.
  cbn. destruct (Qlt_le_dec q 0) as [Hlt|Hle]; split; intros Hq; try assumption;
    try reflexivity; try discriminate.
  exfalso. apply (Qlt_irrefl q). eapply Qlt_le_trans; eassumption.
Qed.

Lemma sign_bit_signed_zero (b : bool) : sign_bit (signed_zero b) = b.
Proof. destruct b; reflexivity. Qed.

(** The sign of a difference: that of its value when it is not zero; a
    zero difference is negative only for [(-0.0) - (+0.0)]. *)
Lemma sign_bit_fsub (x y : float64) :
  (~ (value x - value y == 0)%Q -> (sign_bit (fsub x y) = true <-> (value x < value y)%Q)) /\
  ((value x - value y == 0)%Q ->
   (sign_bit (fsub x y) = true <-> x = NegZero /\ y <> NegZero)).
Proof.
  unfold fsub. split; intros Hv.
  - apply Qeq_bool_false_iff in Hv. rewrite Hv. rewrite sign_bit_Finite.
    split; intros Hlt; Lqa.lra.
  - apply Qeq_bool_iff in Hv. rewrite Hv.
    destruct x, y; cbn; split; try discriminate; try (intros [? ?]; congruence).
    intros _. split; [reflexivity|discriminate].
Qed.

Lemma atan_negative (x : R) : (atan x < 0 <-> x < 0)%R.
Proof.
  split; intros Hx.
  - destruct (Rlt_dec x 0) as [Hlt|Hge]; [exact Hlt|exfalso].
    destruct (Req_dec x 0) as [->|Hne].
    + rewrite atan_0 in Hx. Lra.lra.
    + assert (Hpos : (0 < x)%R) by Lra.lra.
      apply atan_increasing in Hpos. rewrite atan_0 in Hpos. Lra.lra.
  - apply atan_increasing in Hx. rewrite atan_0 in Hx. exact Hx.
Qed.

Lemma rad2deg_negative (x : R) : (np.rad2deg x < 0 <-> x < 0)%R.
Proof.
  unfold np.rad2deg. pose proof PI_RGT_0 as Hpi.
  assert (Hc : (0 < 180 / PI)%R) by (apply Rdiv_lt_0_compat; Lra.lra).
  set (c := (180 / PI)%R) in *. split; intros Hx; Lra.nra.
Qed.

Lemma Q2R_negative (q : Q) : (Q2R q < 0)%R <-> (q < 0)%Q.
Proof.
  rewrite <- RMicromega.Q2R_0. split; [apply Rlt_Qlt|apply Qlt_Rlt].
Qed.

(** C5 (amended). The direction of a path as the program computes it:
    with fewer than four coordinates, a warning and [0 deg]; otherwise,
    from the first two points alone (which may coincide), [90 deg] when
    [dx] is zero, and else the angle [atan(dy/dx)] in degrees rounded to
    the nearest integer, printed with the sign bit of the float [dy/dx]
    and followed by [deg].  The sign is printed when the angle is negative
    and also when [dy] is zero and the sign bits of [dy] and [dx] differ:
    a first edge along the negative x direction gives [-0 deg]. *)
Theorem area_fast_path_first_two_points (points : list float64) (st : state) :
  ((length points < 4)%nat ->
   run (area_fast_path points) st
     = Ok ("0 deg", State (closed st) (errors st ++ [too_few_points]))) /\
  (forall (x1 y1 x2 y2 : float64) (rest : list float64),
      points = x1 :: y1 :: x2 :: y2 :: rest ->
      let dx := fsub x2 x1 in
      let dy := fsub y2 y1 in
      (value dx == value x2 - value x1)%Q /\
      (value dy == value y2 - value y1)%Q /\
      ((value dx == 0)%Q -> run (area_fast_path points) st = Ok ("90 deg", st)) /\
      (~ (value dx == 0)%Q ->
       let angle := (atan (Q2R (value dy / value dx)) * (180 / PI))%R in
       let minus := sign_bit (fdiv dy dx) in
       (exists k : Z,
           (0 <= k)%Z /\
           (Rabs (IZR k - Rabs angle) <= 1 / 2)%R /\
           run (area_fast_path points) st
             = Ok ((if minus then "-" else "") +:+ decimal k +:+ " deg", st)) /\
       (~ (value dy == 0)%Q -> (minus = true <-> (angle < 0)%R)) /\
       ((value dy == 0)%Q ->
        angle = 0%R /\
        minus = xorb (sign_bit dy) (sign_bit dx) /\
        (sign_bit dx = true <-> (value x2 < value x1)%Q) /\
        (sign_bit dy = true <-> y2 = NegZero /\ y1 <> NegZero)))).
Proof.
  split.
  - intros Hlen. unfold area_fast_path.
    destruct (Nat.ltb_spec (length points) 4) as [_|?]; [reflexivity|lia].
  - intros x1 y1 x2 y2 rest -> dx dy.
    split; [apply value_fsub|]. split; [apply value_fsub|].
    assert (Hrun : run (area_fast_path (x1 :: y1 :: x2 :: y2 :: rest)) st =
                   if Qeq_bool (value dx) 0 then Ok ("90 deg", st)
                   else Ok (format_0f (sign_bit (fdiv dy dx))
                              (np.rad2deg (np.arctan (value (fdiv dy dx)))) +:+ " deg", st)).
    { unfold area_fast_path.
      change (length (x1 :: y1 :: x2 :: y2 :: rest) <? 4)%nat with false. cbv iota.
      repeat (rewrite run_bind, run_lift; cbn [index lookup list_lookup]).
      fold dx dy. destruct (Qeq_bool (value dx) 0); reflexivity. }
    rewrite Hrun. split.
    + intros Hdx. apply Qeq_bool_iff in Hdx. rewrite Hdx. reflexivity.
    + intros Hdx angle minus.
      assert (Hangle : np.rad2deg (np.arctan (value (fdiv dy dx))) = angle).
      { unfold np.rad2deg, np.arctan, angle.
        rewrite (Qeq_eqR _ _ (value_fdiv dy dx)). reflexivity. }
      split; [|split].
      * pose proof Hdx as Hb. apply Qeq_bool_false_iff in Hb. rewrite Hb.
        exists (Rround_half_even (Rabs angle)).
        split; [apply Rround_half_even_nonneg, Rabs_pos|].
        split; [apply Rround_half_even_close|].
        rewrite Hangle. unfold format_0f. fold minus.
        rewrite append_assoc. reflexivity.
      * intros Hdy. unfold minus, fdiv.
        apply Qeq_bool_false_iff in Hdy. rewrite Hdy.
        rewrite sign_bit_Finite, <- Q2R_negative, <- atan_negative.
        unfold angle. symmetry. apply rad2deg_negative.
      * intros Hdy.
        assert (Hzero : (value dy / value dx == 0)%Q)
          by (rewrite Hdy; unfold Qdiv; apply Qmult_0_l).
        split; [|split; [|split]].
        -- unfold angle. rewrite (Qeq_eqR _ _ Hzero), RMicromega.Q2R_0, atan_0. Lra.lra.
        -- unfold minus, fdiv. apply Qeq_bool_iff in Hdy. rewrite Hdy.
           apply sign_bit_signed_zero.
        -- subst dx. rewrite (value_fsub x2 x1) in Hdx.
           rewrite (proj1 (sign_bit_fsub x2 x1) Hdx). reflexivity.
        -- subst dy. rewrite (value_fsub y2 y1) in Hdy.
           apply (proj2 (sign_bit_fsub y2 y1) Hdy).
Qed.

(** A whole number of degrees prints as itself, after the sign. *)
Lemma format_0f_INR (negative : bool) (n : nat) :
  format_0f negative (INR n) = (if negative then "-" else "") +:+ decimal (Z.of_nat n).
Proof.
  unfold format_0f. pose proof (pos_INR n) as Hpos.
  rewrite Rabs_pos_eq by exact Hpos.
  unfold Rround_half_even. rewrite Int_part_INR.
  assert (Hfrac : frac_part (INR n) = 0%R).
  { unfold frac_part. rewrite Int_part_INR, <- INR_IZR_INZ. Lra.lra. }
  rewrite Hfrac. destruct (Rlt_dec 0 (1 / 2)) as [_|Hn]; [reflexivity|Lra.lra].
Qed.

Lemma rad2deg_arctan_0 : np.rad2deg (np.arctan 0) = INR 0.
Proof.
  unfold np.rad2deg, np.arctan. rewrite RMicromega.Q2R_0, atan_0. cbn [INR]. Lra.lra.
Qed.

(** A first edge from (10,0) to (0,0) points along the negative x
    direction: [dy/dx] is the negative zero and the direction is printed
    as [-0 deg], which is not the integer [0] followed by [deg].  Two
    coincident points are four coordinates: no warning is given and the
    direction is [90 deg], not [0 deg]. *)
Lemma area_fast_path_negative_zero :
  (run (area_fast_path [Finite 10; Finite 0; Finite 0; Finite 0]) (State None [])
     = Ok ("-0 deg", State None []) /\
   "-0 deg" <> "0 deg") /\
  (run (area_fast_path [Finite 0; Finite 0; Finite 0; Finite 0]) (State None [])
     = Ok ("90 deg", State None []) /\
   run (area_fast_path [Finite 0; Finite 0; Finite 0; Finite 0]) (State None [])
     <> Ok ("0 deg", State None [too_few_points])).
Proof.
  split; split; try discriminate; [|reflexivity].
  unfold area_fast_path.
  change (length [Finite 10; Finite 0; Finite 0; Finite 0] <? 4)%nat with false. cbv iota.
  repeat (rewrite run_bind, run_lift; cbn [index lookup list_lookup]).
  change (negb (Qeq_bool (value (fsub (Finite 0) (Finite 10))) 0)) with true. cbv iota.
  change (fdiv (fsub (Finite 0) (Finite 0)) (fsub (Finite 0) (Finite 10))) with NegZero.
  rewrite run_mret. cbn [sign_bit value].
  rewrite rad2deg_arctan_0, format_0f_INR. reflexivity.
Qed.

Lemma area_fast_path_first_two_points_witness :
  run (area_fast_path [Finite 1; Finite 2; Finite 3]) (State None [])
    = Ok ("0 deg", State None [too_few_points]) /\
  run (area_fast_path [Finite 0; Finite 0; Finite 0; Finite 5; Finite 7; Finite 7])
      (State None []) = Ok ("90 deg", State None []) /\
  (let dx := fsub (Finite 1) (Finite 0) in
   let dy := fsub (Finite 1) (Finite 0) in
   let angle := (atan (Q2R (value dy / value dx)) * (180 / PI))%R in
   let minus := sign_bit (fdiv dy dx) in
   exists k : Z,
     (0 <= k)%Z /\
     (Rabs (IZR k - Rabs angle) <= 1 / 2)%R /\
     run (area_fast_path [Finite 0; Finite 0; Finite 1; Finite 1; Finite 9; Finite 9])
         (State None [])
       = Ok ((if minus then "-" else "") +:+ decimal k +:+ " deg", State None [])).
Proof.
  split; [|split].
  - apply (proj1 (area_fast_path_first_two_points
                    [Finite 1; Finite 2; Finite 3] (State None []))).
    cbn. lia.
  - apply (proj2 (area_fast_path_first_two_points
                    [Finite 0; Finite 0; Finite 0; Finite 5; Finite 7; Finite 7]
                    (State None []))
             (Finite 0) (Finite 0) (Finite 0) (Finite 5) [Finite 7; Finite 7] eq_refl).
    reflexivity.
  - apply (proj2 (area_fast_path_first_two_points
                    [Finite 0; Finite 0; Finite 1; Finite 1; Finite 9; Finite 9]
                    (State None []))
             (Finite 0) (Finite 0) (Finite 1) (Finite 1) [Finite 9; Finite 9] eq_refl).
    discriminate.
Defined.

(** The scenario of the design document: the first edge runs from (0,0) to
    (10,0), so the direction is [0 deg]; and a diagonal first edge gives
    [45 deg]. *)
Example scenario_first_edge (st : state) :
  run (area_fast_path [Finite 0; Finite 0; Finite 10; Finite 0; Finite 10; Finite 10]) st
    = Ok ("0 deg", st) /\
  run (area_fast_path [Finite 0; Finite 0; Finite 10; Finite 10]) st = Ok ("45 deg", st).
Proof.
  split.
  - unfold area_fast_path.
    change (length [Finite 0; Finite 0; Finite 10; Finite 0; Finite 10; Finite 10] <? 4)%nat
      with false. cbv iota.
    repeat (rewrite run_bind, run_lift; cbn [index lookup list_lookup]).
    change (negb (Qeq_bool (value (fsub (Finite 10) (Finite 0))) 0)) with true. cbv iota.
    change (fdiv (fsub (Finite 0) (Finite 0)) (fsub (Finite 10) (Finite 0))) with (Finite 0).
    rewrite run_mret. cbn [value].
    change (sign_bit (Finite 0)) with false.
    rewrite rad2deg_arctan_0, format_0f_INR. reflexivity.
  - assert (Hangle : np.rad2deg (np.arctan (value (fdiv (fsub (Finite 10) (Finite 0))
                                                       (fsub (Finite 10) (Finite 0)))))
                     = INR 45).
    { unfold np.rad2deg, np.arctan.
      replace (Q2R (value (fdiv (fsub (Finite 10) (Finite 0)) (fsub (Finite 10) (Finite 0)))))
        with 1%R
        by (unfold Q2R; vm_compute Qnum; vm_compute Qden; Lra.lra).
      rewrite atan_1, INR_IZR_INZ. change (Z.of_nat 45) with 45%Z.
      pose proof PI_RGT_0. field. Lra.lra. }
    unfold area_fast_path.
    change (length [Finite 0; Finite 0; Finite 10; Finite 10] <? 4)%nat with false. cbv iota.
    repeat (rewrite run_bind, run_lift; cbn [index lookup list_lookup]).
    change (negb (Qeq_bool (value (fsub (Finite 10) (Finite 0))) 0)) with true. cbv iota.
    rewrite run_mret, Hangle, format_0f_INR.
    change (sign_bit (fdiv (fsub (Finite 10) (Finite 0)) (fsub (Finite 10) (Finite 0))))
      with false.
    reflexivity.
Qed.

(** ** The branch for open paths, and the scenarios of the design document *)


Section open_branch.

Context `{FloatText}.
Variable opts : options.


(** X6. [get_outl] and [gen_style] decide the outline alike: both fail on a
    style without a [fill] property, and otherwise [gen_style] returns the
    outline flag of [get_outl]. *)
Lemma get_outl_gen_style (sty layer_color : string) (layer_alpha : Q) :
  snd <$> gen_style sty layer_color layer_alpha = get_outl sty.
Proof.
  unfold gen_style, get_outl. destruct (re.search_fill sty); [|reflexivity].
  destruct (negb _); reflexivity.
Qed.

End open_branch.

(** A filled rectangle 10 wide and 5 high: not an outline, direction
    [0 deg], new style from the layer colour and opacity. *)
Example scenario_rectangle :
  @gen_style sample_text "fill:#000000;" "#1F77B4" (127 # 255)
    = Ok ("fill:#1F77B4;stroke:none;opacity:" +:+ format_fixed 6 (127 # 255), "false") /\
  @area_fast_rect sample_text "10" "5" = Ok "0 deg" /\
  @area_fast_rect sample_text "5" "5" = Ok "0 deg" /\
  @area_fast_rect sample_text "5" "10" = Ok "90 deg".
Proof. repeat split; vm_compute; reflexivity. Qed.

(** Colours found in a string: a six-digit colour gets the opacity [FF]. *)
Example scenario_color_string :
  color_string2color_list "#1F77B4 and #AABBCC11" = ["#1F77B4FF"; "#AABBCC11"].
Proof. vm_compute. reflexivity. Qed.

(** * Further properties *)

(** ** Further properties of the curve flattener *)

Lemma for_each_first_raises {A B} (f : A -> result B) (x : A) (xs : list A) (e : exn) :
  f x = Raise e -> for_each f (x :: xs) = Raise e.
Proof. intros Hf. cbn. rewrite Hf. reflexivity. Qed.

Lemma linspace_nonempty (n : Z) (ts : list Q) :
  (1 <= n)%Z -> np.linspace (1 / inject_Z n) 1 n = Ok ts -> exists t ts', ts = t :: ts'.
Proof.
  intros Hn Hlin. destruct (linspace_samples n Hn) as (ts0 & Hlin0 & Hlen & _).
  rewrite Hlin in Hlin0. injection Hlin0 as <-.
  destruct ts as [|t ts']; [cbn in Hlen; lia|]. eauto.
Qed.

(** X1. How [interpolate_curved_path] fails: a sampling count of zero is a
    division by zero, a negative one is refused by [np.linspace]; with a
    count of at least one, a path tag other than [C] and [Q] leaves [func]
    unbound, and a curve with too few control points is an index error. *)
Theorem interpolate_curved_path_failures (path : string * list complex) (n : Z) :
  (n = 0%Z -> interpolate_curved_path path n = Raise ZeroDivisionError) /\
  ((n < 0)%Z ->
   interpolate_curved_path path n
     = Raise (ValueError "Number of samples must be non-negative.")) /\
  ((1 <= n)%Z -> fst path <> "C" -> fst path <> "Q" ->
   interpolate_curved_path path n = Raise (UnboundLocalError "func")) /\
  ((1 <= n)%Z -> fst path = "C" -> (length (snd path) < 4)%nat ->
   interpolate_curved_path path n = Raise IndexError) /\
  ((1 <= n)%Z -> fst path = "Q" -> (length (snd path) < 3)%nat ->
   interpolate_curved_path path n = Raise IndexError).
Proof.
  destruct path as [tag pts]. cbn [fst snd].
  assert (Hone : (1 <= n)%Z -> exists t ts,
             interpolate_curved_path (tag, pts) n =
             for_each (fun t => match (if String.eqb tag "C" then Some cubic_bezier
                                       else if String.eqb tag "Q"
                                            then Some quadratic_bezier else None) with
                                | Some f => f (tag, pts) t
                                | None => Raise (UnboundLocalError "func")
                                end) (t :: ts)).
  { intros Hn. destruct (linspace_samples n Hn) as (ts & Hlin & _).
    destruct (linspace_nonempty n ts Hn Hlin) as (t & ts' & ->).
    exists t, ts'. unfold interpolate_curved_path, one_over.
    destruct (Z.eqb_spec n 0); [lia|]. cbn. rewrite Hlin. reflexivity. }
  repeat split.
  - intros ->. reflexivity.
  - intros Hneg. unfold interpolate_curved_path, one_over, np.linspace.
    destruct (Z.eqb_spec n 0); [lia|]. cbn.
    destruct (Z.ltb_spec n 0); [reflexivity|lia].
  - intros Hn HC HQ. destruct (Hone Hn) as (t & ts & ->).
    apply for_each_first_raises.
    rewrite (string_eqb_false _ _ HC), (string_eqb_false _ _ HQ). reflexivity.
  - intros Hn -> Hlen. destruct (Hone Hn) as (t & ts & ->).
    apply for_each_first_raises.
    destruct pts as [|b0 [|b1 [|b2 [|b3 rest]]]]; cbn in Hlen; try lia; reflexivity.
  - intros Hn -> Hlen. destruct (Hone Hn) as (t & ts & ->).
    apply for_each_first_raises.
    destruct pts as [|b0 [|b1 [|b2 rest]]]; cbn in Hlen; try lia; reflexivity.
Qed.

Lemma interpolate_curved_path_failures_witness :
  interpolate_curved_path ("C", []) 0 = Raise ZeroDivisionError /\
  interpolate_curved_path ("C", []) (-3)
    = Raise (ValueError "Number of samples must be non-negative.") /\
  interpolate_curved_path ("L", [Complex 0 0; Complex 1 1]) 10
    = Raise (UnboundLocalError "func") /\
  interpolate_curved_path ("C", [Complex 0 0; Complex 1 1; Complex 2 2]) 10 = Raise IndexError /\
  interpolate_curved_path ("Q", [Complex 0 0; Complex 1 1]) 10 = Raise IndexError.
Proof.
  split; [apply (proj1 (interpolate_curved_path_failures ("C", []) 0)); reflexivity|].
  split; [apply (proj1 (proj2 (interpolate_curved_path_failures ("C", []) (-3)))); lia|].
  split; [apply (proj1 (proj2 (proj2 (interpolate_curved_path_failures
                    ("L", [Complex 0 0; Complex 1 1]) 10)))); [lia|discriminate|discriminate]|].
  split.
  - apply (proj1 (proj2 (proj2 (proj2 (interpolate_curved_path_failures
             ("C", [Complex 0 0; Complex 1 1; Complex 2 2]) 10))))); [lia|reflexivity|cbn; lia].
  - apply (proj2 (proj2 (proj2 (proj2 (interpolate_curved_path_failures
             ("Q", [Complex 0 0; Complex 1 1]) 10))))); [lia|reflexivity|cbn; lia].
Defined.

Lemma cubic_B_Qeq (b0 b1 b2 b3 : complex) (t t' : Q) :
  (t == t')%Q -> (cubic_B b0 b1 b2 b3 t == cubic_B b0 b1 b2 b3 t')%C.
Proof.
  intros Ht. destruct b0, b1, b2, b3. split; cbn; rewrite Ht; reflexivity.
Qed.

Lemma quadratic_B_Qeq (b0 b1 b2 : complex) (t t' : Q) :
  (t == t')%Q -> (quadratic_B b0 b1 b2 t == quadratic_B b0 b1 b2 t')%C.
Proof.
  intros Ht. destruct b0, b1, b2. split; cbn; rewrite Ht; reflexivity.
Qed.

Lemma bezier_endpoints (b0 b1 b2 b3 : complex) :
  (cubic_B b0 b1 b2 b3 1 == b3)%C /\ (quadratic_B b0 b1 b2 1 == b2)%C.
Proof.
  split.
  - destruct b0, b1, b2, b3; split; cbn; ring.
  - destruct b0, b1, b2; split; cbn; ring.
Qed.

Lemma ceq_trans (a b c : complex) : (a == b)%C -> (b == c)%C -> (a == c)%C.
Proof. intros [H1 H2] [H3 H4]. split; etransitivity; eassumption. Qed.

(** The last sample of [np.linspace(1/n, 1, n)] is 1. *)
Lemma linspace_last (n : Z) (ts : list Q) :
  (1 <= n)%Z -> np.linspace (1 / inject_Z n) 1 n = Ok ts ->
  exists t : Q, last ts = Some t /\ (t == 1)%Q.
Proof.
  intros Hn Hlin. destruct (linspace_samples n Hn) as (ts0 & Hlin0 & Hlen & Hnth).
  rewrite Hlin in Hlin0. injection Hlin0 as <-.
  rewrite last_lookup.
  destruct (ts !! pred (length ts)) as [t|] eqn:Ht.
  - exists t. split; [reflexivity|]. rewrite (Hnth _ _ Ht).
    assert (Hk : (inject_Z (Z.of_nat (pred (length ts))) + 1 == inject_Z n)%Q).
    { change 1%Q with (inject_Z 1). rewrite <- inject_Z_plus. f_equiv. lia. }
    rewrite Hk. field. pose proof (inject_Z_pos n Hn) as Hq.
    intros Hc. rewrite Hc in Hq. apply (Qlt_irrefl 0), Hq.
  - apply lookup_ge_None in Ht. lia.
Qed.

(** The polyline of a curve ends where the curve ends. *)
Lemma interpolate_curved_path_last (n : Z) (ts : list Q) :
  (1 <= n)%Z -> np.linspace (1 / inject_Z n) 1 n = Ok ts ->
  (forall b0 b1 b2 b3, exists e,
      last (cubic_B b0 b1 b2 b3 <$> ts) = Some e /\ (e == b3)%C) /\
  (forall b0 b1 b2, exists e,
      last (quadratic_B b0 b1 b2 <$> ts) = Some e /\ (e == b2)%C).
Proof.
  intros Hn Hlin. destruct (linspace_last n ts Hn Hlin) as (t & Hlast & Ht).
  split; intros; rewrite fmap_last, Hlast; eexists; (split; [reflexivity|]).
  - eapply ceq_trans; [apply cubic_B_Qeq; exact Ht|].
    apply (proj1 (bezier_endpoints b0 b1 b2 b3)).
  - eapply ceq_trans; [apply quadratic_B_Qeq; exact Ht|].
    apply (proj2 (bezier_endpoints b0 b1 b2 b2)).
Qed.

(** X2. For every sampling count [n >= 1] the points returned for a cubic
    curve end at its last control point [b3], and those returned for a
    quadratic curve end at [b2]: the polyline that replaces a curve reaches
    the end of the curve, however coarse the sampling. *)
Theorem flattened_curve_reaches_endpoint (n : Z) (b0 b1 b2 b3 : complex) :
  (1 <= n)%Z ->
  (exists (points : list complex) (e : complex),
      interpolate_curved_path ("C", [b0; b1; b2; b3]) n = Ok points /\
      last points = Some e /\ (e == b3)%C) /\
  (exists (points : list complex) (e : complex),
      interpolate_curved_path ("Q", [b0; b1; b2]) n = Ok points /\
      last points = Some e /\ (e == b2)%C).
Proof.
  intros Hn. destruct (linspace_samples n Hn) as (ts & Hlin & _).
  destruct (interpolate_curved_path_linspace n ts Hn Hlin) as [HC HQ].
  destruct (interpolate_curved_path_last n ts Hn Hlin) as [HlC HlQ].
  split.
  - destruct (HlC b0 b1 b2 b3) as (e & Hl & He). eexists _, e. split; [apply HC|auto].
  - destruct (HlQ b0 b1 b2) as (e & Hl & He). eexists _, e. split; [apply HQ|auto].
Qed.

Lemma flattened_curve_reaches_endpoint_witness :
  (exists (points : list complex) (e : complex),
      interpolate_curved_path
        ("C", [Complex 0 0; Complex 0 10; Complex 10 10; Complex 10 0]) 3 = Ok points /\
      last points = Some e /\ (e == Complex 10 0)%C) /\
  (exists (points : list complex) (e : complex),
      interpolate_curved_path ("Q", [Complex 0 0; Complex 0 10; Complex 10 10]) 3 = Ok points /\
      last points = Some e /\ (e == Complex 10 10)%C).
Proof.
  apply (flattened_curve_reaches_endpoint 3 (Complex 0 0) (Complex 0 10) (Complex 10 10)
           (Complex 10 0)).
  lia.
Defined.

(** ** Further properties of the path interpreter *)

Lemma ceq_refl (a : complex) : (a == a)%C.
Proof. split; reflexivity. Qed.

#[local] Opaque interpolate_curved_path.

(** One command, in full: either it writes nothing and leaves the current
    point, or it appends one piece whose last vertex is the new current
    point; the piece of an [M] has no leading space, every other has. *)
Lemma path_step_piece (n : Z) (c : cursor) (s : seg) (st : state) :
  (1 <= n)%Z -> well_formed s ->
  exists (c' : cursor) (st' : state),
    run (path_step n c s) st = Ok (c', st') /\
    ((points2 c' = points2 c /\ PP c' = PP c) \/
     (exists (piece : points2_piece) (e : complex),
         points2 c' = points2 c ++ [piece] /\
         last (piece_vertices piece) = Some e /\ (e == PP c')%C /\
         (if String.eqb (fst s) "M" then piece = pts_first (PP c') else spaced piece))).
Proof.
  intros Hn Hwf. destruct s as [letter args]. unfold well_formed in Hwf.
  cbn [fst snd] in *.
  destruct (linspace_samples n Hn) as (ts & Hlin & Hlen & _).
  destruct (interpolate_curved_path_linspace n ts Hn Hlin) as [HC HQ].
  destruct (interpolate_curved_path_last n ts Hn Hlin) as [HlC HlQ].
  assert (Hne : forall (B : Q -> complex), B <$> ts <> []).
  { intros B Hnil. apply (f_equal length) in Hnil. rewrite length_fmap, Hlen in Hnil.
    cbn in Hnil. lia. }
  unfold path_step. cbn [fst snd].
  destruct (String.eqb_spec letter "M") as [->|HM].
  { destruct args as [|a0 [|a1 rest]]; cbn in Hwf; try lia.
    eexists _, _. split; [reflexivity|]. right. eexists _, _. cbn [points2 PP].
    split; [reflexivity|]. split; [reflexivity|]. split; [apply ceq_refl|reflexivity]. }
  destruct (String.eqb_spec letter "L") as [->|HL].
  { destruct args as [|a0 [|a1 rest]]; cbn in Hwf; try lia.
    eexists _, _. split; [reflexivity|]. right. eexists _, _. cbn [points2 PP].
    split; [reflexivity|]. split; [reflexivity|]. split; [apply ceq_refl|exact I]. }
  destruct (String.eqb_spec letter "H") as [->|HH].
  { destruct args as [|a0 rest]; cbn in Hwf; try lia.
    eexists _, _. split; [reflexivity|]. right. eexists _, _. cbn [points2 PP].
    split; [reflexivity|]. split; [reflexivity|]. split; [apply ceq_refl|exact I]. }
  destruct (String.eqb_spec letter "V") as [->|HV].
  { destruct args as [|a0 rest]; cbn in Hwf; try lia.
    eexists _, _. split; [reflexivity|]. right. eexists _, _. cbn [points2 PP].
    split; [reflexivity|]. split; [reflexivity|]. split; [apply ceq_refl|exact I]. }
  destruct (String.eqb_spec letter "C") as [->|HCl].
  { destruct args as [|a0 [|a1 [|a2 [|a3 [|a4 [|a5 rest]]]]]]; cbn in Hwf; try lia.
    pose proof (HC (PP c) (Complex a0 a1) (Complex a2 a3) (Complex a4 a5)) as Hi.
    destruct (HlC (PP c) (Complex a0 a1) (Complex a2 a3) (Complex a4 a5)) as (e & Hl & He).
    eexists _, _. split.
    { repeat (rewrite run_bind, run_lift; cbn [index lookup list_lookup]).
      rewrite Hi. reflexivity. }
    right. eexists _, e. cbn [points2 PP piece_vertices].
    split; [reflexivity|]. split; [exact Hl|]. split; [exact He|apply Hne]. }
  destruct (String.eqb_spec letter "S") as [->|HS].
  { destruct args as [|a0 [|a1 [|a2 [|a3 rest]]]]; cbn in Hwf; try lia.
    pose proof (HC (PP c) (csub (cscale 2 (PP c)) (CC c)) (Complex a0 a1) (Complex a2 a3))
      as Hi.
    destruct (HlC (PP c) (csub (cscale 2 (PP c)) (CC c)) (Complex a0 a1) (Complex a2 a3))
      as (e & Hl & He).
    eexists _, _. split.
    { repeat (rewrite run_bind, run_lift; cbn [index lookup list_lookup]).
      rewrite Hi. reflexivity. }
    right. eexists _, e. cbn [points2 PP piece_vertices].
    split; [reflexivity|]. split; [exact Hl|]. split; [exact He|apply Hne]. }
  destruct (String.eqb_spec letter "Q") as [->|HQl].
  { destruct args as [|a0 [|a1 [|a2 [|a3 rest]]]]; cbn in Hwf; try lia.
    pose proof (HQ (PP c) (Complex a0 a1) (Complex a2 a3)) as Hi.
    destruct (HlQ (PP c) (Complex a0 a1) (Complex a2 a3)) as (e & Hl & He).
    eexists _, _. split.
    { repeat (rewrite run_bind, run_lift; cbn [index lookup list_lookup]).
      rewrite Hi. reflexivity. }
    right. eexists _, e. cbn [points2 PP piece_vertices].
    split; [reflexivity|]. split; [exact Hl|]. split; [exact He|apply Hne]. }
  destruct (String.eqb_spec letter "T") as [->|HT].
  { destruct args as [|a0 [|a1 rest]]; cbn in Hwf; try lia.
    pose proof (HQ (PP c) (csub (cscale 2 (PP c)) (CC c)) (Complex a0 a1)) as Hi.
    destruct (HlQ (PP c) (csub (cscale 2 (PP c)) (CC c)) (Complex a0 a1)) as (e & Hl & He).
    eexists _, _. split.
    { repeat (rewrite run_bind, run_lift; cbn [index lookup list_lookup]).
      rewrite Hi. reflexivity. }
    right. eexists _, e. cbn [points2 PP piece_vertices].
    split; [reflexivity|]. split; [exact Hl|]. split; [exact He|apply Hne]. }
  destruct (String.eqb_spec letter "A") as [->|HA].
  { destruct args as [|a0 [|a1 [|a2 [|a3 [|a4 [|a5 [|a6 rest]]]]]]]; cbn in Hwf; try lia.
    eexists _, _. split; [reflexivity|]. right. eexists _, _. cbn [points2 PP].
    split; [reflexivity|]. split; [reflexivity|]. split; [apply ceq_refl|exact I]. }
  destruct (String.eqb_spec letter "Z") as [->|HZ].
  { eexists _, _. split; [reflexivity|]. left. split; reflexivity. }
  exists c, st. split; [reflexivity|]. left. split; reflexivity.
Qed.

#[local] Transparent interpolate_curved_path.

(** The whole loop keeps: the last vertex written, if any, is the current
    point. *)
Lemma foldM_path_step_cursor (n : Z) (segs : list seg) (c : cursor) (st : state) :
  (1 <= n)%Z -> Forall well_formed segs ->
  (forall v, last (vertices (points2 c)) = Some v -> (v == PP c)%C) ->
  exists (c' : cursor) (st' : state),
    run (foldM (path_step n) c segs) st = Ok (c', st') /\
    (forall v, last (vertices (points2 c')) = Some v -> (v == PP c')%C).
Proof.
  intros Hn Hwf. revert c st.
  induction Hwf as [|s segs Hs Hsegs IH]; intros c st Hinv.
  - exists c, st. split; [reflexivity|exact Hinv].
  - destruct (path_step_piece n c s st Hn Hs) as (c1 & st1 & Hstep & Hcase).
    assert (Hinv1 : forall v, last (vertices (points2 c1)) = Some v -> (v == PP c1)%C).
    { destruct Hcase as [[Hp HPP]|(piece & e & Hp & Hl & He & _)].
      - rewrite Hp, HPP. exact Hinv.
      - intros v. rewrite Hp, vertices_snoc.
        destruct (piece_vertices piece) as [|x xs] eqn:Hpv; [discriminate|].
        rewrite last_app, Hl. intros [= <-]. exact He. }
    destruct (IH c1 st1 Hinv1) as (c' & st' & Hrun & Hinv').
    exists c', st'. split; [|exact Hinv'].
    cbn [foldM]. rewrite run_bind, Hstep. exact Hrun.
Qed.

(** X3. After any sequence of well-formed commands (sampling count at least
    one) the last vertex written to the point list is the current point of
    the interpreter: straight and curved segments alike continue from the
    vertex written last, and [Z] and unknown commands neither move the
    current point nor write a vertex. *)
Theorem last_vertex_is_current_point (n : Z) (segs : list seg) (st : state) :
  (1 <= n)%Z -> Forall well_formed segs ->
  exists (c : cursor) (st' : state),
    run (interpret_path n segs) st = Ok (c, st') /\
    forall v : complex, last (vertices (points2 c)) = Some v -> (v == PP c)%C.
Proof.
  intros Hn Hwf. unfold interpret_path.
  apply (foldM_path_step_cursor n segs cursor0 st Hn Hwf).
  intros v Hv. discriminate.
Qed.

Lemma last_vertex_is_current_point_witness :
  exists (c : cursor) (st' : state),
    run (interpret_path 3
           [("M", [0; 0]%Q); ("C", [0; 10; 10; 10; 10; 0]%Q); ("T", [20; 0]%Q); ("Z", [])])
        (State None []) = Ok (c, st') /\
    forall v : complex, last (vertices (points2 c)) = Some v -> (v == PP c)%C.
Proof.
  apply (last_vertex_is_current_point 3); [lia|].
  repeat constructor; unfold well_formed; cbn; lia.
Defined.

(** ** Further properties of a run of [effect] *)

(** X7. A command with fewer arguments than its letter reads ends the run
    with [IndexError], whatever the sampling count and the current point:
    the arguments are read before a curve is flattened and before anything
    is written. *)
Theorem path_step_short_command (n : Z) (c : cursor) (s : seg) (st : state) :
  ~ well_formed s -> run (path_step n c s) st = Raise IndexError.
Proof.
  destruct s as [letter args]. unfold well_formed, arity, path_step. cbn [fst snd].
  intros Hshort.
  repeat match goal with
         | |- context [String.eqb letter ?x] =>
             destruct (String.eqb letter x);
               [ repeat (destruct args as [|? args]; [reflexivity|]); cbn in Hshort; lia | ]
         end.
  cbn in Hshort. lia.
Qed.

Lemma path_step_short_command_witness :
  ~ well_formed ("C", [0; 10; 10; 10; 10]%Q) /\
  run (path_step 5 cursor0 ("C", [0; 10; 10; 10; 10]%Q)) (State None []) = Raise IndexError.
Proof.
  assert (Hshort : ~ well_formed ("C", [0; 10; 10; 10; 10]%Q))
    by (unfold well_formed; cbn; lia).
  split; [exact Hshort|]. apply (path_step_short_command 5 cursor0 _ _ Hshort).
Defined.

(** X8. The colour cycle and the layers.  With the cycle taken from a
    string that holds no colour, the first layer ends the run with
    [ZeroDivisionError]; with a cycle type other than [default], [string]
    and [custom] the variable [color_cycle] is unbound and the first layer
    ends the run with [UnboundLocalError].  A drawing without layers is
    converted in both cases. *)
Theorem effect_color_cycle_failures `{FloatText} (opts : options) (size : Q)
    (svg_layer : layer_element) (svg_layer_list : list layer_element) :
  (color_cycle opts = "string" -> color_string2color_list (color_string opts) = [] ->
   effect opts size (svg_layer :: svg_layer_list) = Raise ZeroDivisionError /\
   effect opts size [] = Ok ([], [])) /\
  (color_cycle opts <> "default" -> color_cycle opts <> "string" ->
   color_cycle opts <> "custom" ->
   effect opts size (svg_layer :: svg_layer_list) = Raise (UnboundLocalError "color_cycle") /\
   effect opts size [] = Ok ([], [])).
Proof.
  split.
  - intros Htype Hnone. unfold effect, effect_body, choose_color_cycle.
    rewrite Htype, Hnone.
    change (String.eqb "string" "default") with false.
    change (String.eqb "string" "string") with true. cbv iota.
    split; reflexivity.
  - intros Hd Hs Hc. unfold effect, effect_body, choose_color_cycle.
    rewrite (string_eqb_false _ _ Hd), (string_eqb_false _ _ Hs), (string_eqb_false _ _ Hc).
    split; reflexivity.
Qed.

Lemma effect_color_cycle_failures_witness :
  effect (H := sample_text)
    (Options 10 false false "string" "no colour here" [] [] [] [] []) 100
    [layer_of []] = Raise ZeroDivisionError /\
  effect (H := sample_text)
    (Options 10 false false "rainbow" "" [] [] [] [] []) 100
    [layer_of []] = Raise (UnboundLocalError "color_cycle").
Proof.
  split.
  - apply (proj1 (@effect_color_cycle_failures sample_text
                    (Options 10 false false "string" "no colour here" [] [] [] [] []) 100
                    (layer_of []) [])); vm_compute; reflexivity.
  - apply (proj2 (@effect_color_cycle_failures sample_text
                    (Options 10 false false "rainbow" "" [] [] [] [] []) 100
                    (layer_of []) [])); vm_compute; discriminate.
Defined.

(** A loop whose body hands back what it was given returns its input. *)
Lemma forM_fmap {A B C} (f : A -> C) (g : B -> C) (body : A -> M B)
    (xs : list A) (ys : list B) (st st' : state) :
  (forall x st1 y st2, run (body x) st1 = Ok (y, st2) -> g y = f x) ->
  run (forM body xs) st = Ok (ys, st') -> g <$> ys = f <$> xs.
Proof.
  intros Hbody. revert ys st. induction xs as [|x xs IH]; intros ys st Hrun.
  - cbn in Hrun. injection Hrun as <- <-. reflexivity.
  - cbn [forM] in Hrun.
    invert_bind Hrun as y st1 Hy. invert_bind Hrun as ys' st2 Hys.
    rewrite run_mret in Hrun. injection Hrun as <- <-.
    rewrite !fmap_cons, (Hbody _ _ _ _ Hy), (IH _ _ Hys). reflexivity.
Qed.

Lemma combine_seq_snd {A} (l : list A) (start : nat) :
  (combine (seq start (length l)) l).*2 = l.
Proof.
  revert start. induction l as [|x l IH]; intros start; [reflexivity|].
  cbn. rewrite IH. reflexivity.
Qed.

Section drawing.

Context `{FloatText}.
Variable opts : options.
Hypothesis Hoff : apply_on_svg opts = false.

Lemma effect_rect_keeps (attrs : layer_attribs) (rect : gmap string string)
    (y : ely_shape * gmap string string) (st st' : state) :
  run (effect_rect opts attrs rect) st = Ok (y, st') -> y.2 = rect.
Proof.
  intros Hrun. unfold effect_rect in Hrun.
  do 6 lift_step Hrun. destruct x4 as [ns o]. lift_step Hrun.
  rewrite run_mret, Hoff in Hrun. injection Hrun as <- _. reflexivity.
Qed.

Lemma effect_ellipse_keeps (attrs : layer_attribs) (ellipse : gmap string string)
    (y : ely_shape * gmap string string) (st st' : state) :
  run (effect_ellipse opts attrs ellipse) st = Ok (y, st') -> y.2 = ellipse.
Proof.
  intros Hrun. unfold effect_ellipse in Hrun.
  do 6 lift_step Hrun. destruct x4 as [ns o]. lift_step Hrun.
  rewrite run_mret, Hoff in Hrun. injection Hrun as <- _. reflexivity.
Qed.

Lemma effect_circle_keeps (attrs : layer_attribs) (circle : gmap string string)
    (y : ely_shape * gmap string string) (st st' : state) :
  run (effect_circle opts attrs circle) st = Ok (y, st') -> y.2 = circle.
Proof.
  intros Hrun. unfold effect_circle in Hrun.
  do 5 lift_step Hrun. destruct x3 as [ns o].
  rewrite run_mret, Hoff in Hrun. injection Hrun as <- _. reflexivity.
Qed.

Lemma effect_path_keeps (attrs : layer_attribs) (p : path_element)
    (y : ely_shape * path_element) (st st' : state) :
  run (effect_path opts attrs p) st = Ok (y, st') -> y.2 = p.
Proof.
  intros Hrun. unfold effect_path in Hrun.
  do 2 lift_step Hrun.
  invert_bind Hrun as c st1 Hc. invert_bind Hrun as a st2 Ha.
  invert_bind Hrun as b st3 Hb. invert_bind Hrun as styled st4 Hs.
  destruct styled as [ns sh].
  rewrite run_mret, Hoff in Hrun. injection Hrun as <- _. reflexivity.
Qed.

Lemma effect_layer_keeps (size : Q) (color_cycle : option (list string))
    (entry : nat * layer_element) (y : LAYER * LAYER_REFERENCE * layer_element)
    (st st' : state) :
  run (effect_layer opts size color_cycle entry) st = Ok (y, st') -> y.2 = entry.2.
Proof.
  intros Hrun. destruct entry as [i [attrib rects ellipses circles paths]].
  unfold effect_layer in Hrun. do 2 lift_step Hrun.
  cbn [layer_attrib svg_rects svg_ellipses svg_circles svg_paths] in Hrun.
  invert_bind Hrun as rs st1 Hr. invert_bind Hrun as es st2 He.
  invert_bind Hrun as cs st3 Hc. invert_bind Hrun as ps st4 Hp.
  rewrite run_mret in Hrun. injection Hrun as <- _. cbn [snd].
  apply (forM_fmap (fun x => x) snd) in Hr; [|intros; eapply effect_rect_keeps; eassumption].
  apply (forM_fmap (fun x => x) snd) in He; [|intros; eapply effect_ellipse_keeps; eassumption].
  apply (forM_fmap (fun x => x) snd) in Hc; [|intros; eapply effect_circle_keeps; eassumption].
  apply (forM_fmap (fun x => x) snd) in Hp; [|intros; eapply effect_path_keeps; eassumption].
  rewrite Hr, He, Hc, Hp, !list_fmap_id. reflexivity.
Qed.

End drawing.

(** X9. With [apply_on_svg] off, a run that completes leaves every layer
    of the drawing, with its rectangles, ellipses, circles and paths, as
    it found it: styles and path data are rewritten only under
    [apply_on_svg]. *)
Theorem apply_on_svg_off_keeps_drawing `{FloatText} (opts : options) (size : Q)
    (svg_layer_list : list layer_element)
    (out : list (LAYER * LAYER_REFERENCE * layer_element)) (log : list string) :
  apply_on_svg opts = false ->
  effect opts size svg_layer_list = Ok (out, log) ->
  out.*2 = svg_layer_list.
Proof.
  intros Hoff. unfold effect.
  destruct (run _ _) as [[out' st']|e] eqn:Hrun; [|discriminate].
  cbn. intros [= <- <-]. unfold effect_body in Hrun. lift_step Hrun.
  apply (forM_fmap snd snd) in Hrun;
    [|intros; eapply effect_layer_keeps; eassumption].
  rewrite Hrun. apply combine_seq_snd.
Qed.

Lemma apply_on_svg_off_keeps_drawing_witness :
  exists (out : list (LAYER * LAYER_REFERENCE * layer_element)) (log : list string),
    effect (H := sample_text) default_options 100
      [layer_of [closed_triangle "fill:#000000;"]] = Ok (out, log) /\
    out.*2 = [layer_of [closed_triangle "fill:#000000;"]].
Proof.
  assert (E : exists out log,
             effect (H := sample_text) default_options 100
               [layer_of [closed_triangle "fill:#000000;"]] = Ok (out, log))
    by (vm_compute; eexists _, _; reflexivity).
  destruct E as (out & log & E). exists out, log. split; [exact E|].
  apply (@apply_on_svg_off_keeps_drawing sample_text default_options 100 _ out log);
    [reflexivity|exact E].
Defined.

(** The one message [area_fast_path] can give. *)
Lemma area_fast_path_errors (points : list float64) (st st' : state) (a : string) :
  run (area_fast_path points) st = Ok (a, st') ->
  errors st' = errors st \/ errors st' = errors st ++ [too_few_points].
Proof.
  unfold area_fast_path. destruct (length points <? 4)%nat.
  - cbn. intros [= _ <-]. right. reflexivity.
  - intros Hrun. do 4 (invert_run Hrun; apply run_lift_Ok in Hrun0; destruct Hrun0 as [_ ->]).
    destruct (negb _); rewrite run_mret in Hrun; injection Hrun as _ <-; left; reflexivity.
Qed.

Section messages.

Context `{FloatText}.
Variable opts : options.

Lemma effect_path_messages (attrs : layer_attribs) (p : path_element)
    (y : ely_shape * path_element) (st st' : state) :
  only_warnings opts st -> run (effect_path opts attrs p) st = Ok (y, st') ->
  only_warnings opts st'.
Proof.
  intros [Hall Hnone] Hrun. unfold effect_path in Hrun.
  do 2 lift_step Hrun.
  invert_bind Hrun as c st1 Hc. apply interpret_path_state in Hc.
  assert (Hst1 : errors st1 = errors st)
    by (rewrite Hc; destruct (count "Z" (to_arrays p) =? 0)%nat; reflexivity).
  invert_bind Hrun as a st2 Ha.
  invert_bind Hrun as b st3 Hb.
  assert (Hst3 : st3 = st2).
  { unfold read_closed in Hb. cbn [run] in Hb.
    destruct (closed st2); [|discriminate]. injection Hb as _ <-. reflexivity. }
  subst st3.
  invert_bind Hrun as styled st4 Hs. destruct styled as [ns sh].
  rewrite run_mret in Hrun. injection Hrun as _ <-.
  assert (Hst4 : st4 = st2).
  { destruct b.
    - invert_bind Hs as styled st5 Hgen. apply run_lift_Ok in Hgen. destruct Hgen as [_ ->].
      destruct styled as [ns' o]. rewrite run_mret in Hs. injection Hs as _ _ <-. reflexivity.
    - rewrite run_mret in Hs. injection Hs as _ _ <-. reflexivity. }
  subst st4. unfold only_warnings.
  destruct (calc_rot opts) eqn:Hrot.
  - apply area_fast_path_errors in Ha. rewrite Hst1 in Ha.
    split; [|discriminate].
    destruct Ha as [->| ->]; [exact Hall|]. apply Forall_app. split; [exact Hall|].
    constructor; [reflexivity|constructor].
  - rewrite run_mret in Ha. injection Ha as _ <-. rewrite Hst1. split; [exact Hall|].
    intros _. apply Hnone. reflexivity.
Qed.

Lemma effect_layer_messages (size : Q) (color_cycle : option (list string))
    (entry : nat * layer_element) (y : LAYER * LAYER_REFERENCE * layer_element)
    (st st' : state) :
  only_warnings opts st -> run (effect_layer opts size color_cycle entry) st = Ok (y, st') ->
  only_warnings opts st'.
Proof.
  intros Hst Hrun. destruct entry as [i svg_layer]. unfold effect_layer in Hrun.
  do 2 lift_step Hrun.
  invert_bind Hrun as rs st1 Hr. invert_bind Hrun as es st2 He.
  invert_bind Hrun as cs st3 Hc. invert_bind Hrun as ps st4 Hp.
  rewrite run_mret in Hrun. injection Hrun as _ <-.
  apply (forM_invariant (only_warnings opts) (fun _ => True)) in Hr;
    [|intros ? ? [? ?] ? ? Hb; apply effect_rect_Ok in Hb; destruct Hb as [-> _]; auto
     |exact Hst].
  apply (forM_invariant (only_warnings opts) (fun _ => True)) in He;
    [|intros ? ? [? ?] ? ? Hb; apply effect_ellipse_Ok in Hb; destruct Hb as [-> _]; auto
     |exact (proj1 Hr)].
  apply (forM_invariant (only_warnings opts) (fun _ => True)) in Hc;
    [|intros ? ? [? ?] ? ? Hb; apply effect_circle_Ok in Hb; destruct Hb as [-> _]; auto
     |exact (proj1 He)].
  apply (forM_invariant (only_warnings opts) (fun _ => True)) in Hp;
    [|intros ? ? ? ? Hw Hb; split; [eapply effect_path_messages; eassumption|exact I]
     |exact (proj1 Hc)].
  exact (proj1 Hp).
Qed.

End messages.

(** X10. The messages of a run that completes: every one is the warning
    of [area_fast_path] about a path of fewer than two points, and with
    [calc_rot] off there is none at all. *)
Theorem effect_messages `{FloatText} (opts : options) (size : Q)
    (svg_layer_list : list layer_element)
    (out : list (LAYER * LAYER_REFERENCE * layer_element)) (log : list string) :
  effect opts size svg_layer_list = Ok (out, log) ->
  Forall (fun msg => msg = too_few_points) log /\ (calc_rot opts = false -> log = []).
Proof.
  unfold effect. destruct (run _ _) as [[out' st']|e] eqn:Hrun; [|discriminate].
  cbn. intros [= <- <-]. unfold effect_body in Hrun. lift_step Hrun.
  apply (forM_invariant (only_warnings opts) (fun _ => True)) in Hrun.
  - exact (proj1 Hrun).
  - intros ? ? ? ? Hw Hb. split; [eapply effect_layer_messages; eassumption|exact I].
  - split; [constructor|reflexivity].
Qed.

Lemma effect_messages_witness :
  exists (out : list (LAYER * LAYER_REFERENCE * layer_element)),
    effect (H := sample_text)
      (Options 10 false true "default" "" [] [] [] [] []) 100
      [layer_of [path_of "fill:#000000;" [("M", [0; 0]%Q); ("Z", [])]]]
      = Ok (out, [too_few_points]) /\
    Forall (fun msg => msg = too_few_points) [too_few_points].
Proof.
  assert (E : exists out,
             effect (H := sample_text)
               (Options 10 false true "default" "" [] [] [] [] []) 100
               [layer_of [path_of "fill:#000000;" [("M", [0; 0]%Q); ("Z", [])]]]
             = Ok (out, [too_few_points]))
    by (vm_compute; eexists; reflexivity).
  destruct E as (out & E). exists out. split; [exact E|].
  exact (proj1 (@effect_messages sample_text _ _ _ _ _ E)).
Defined.

(** ** Witnesses for the properties of the path branch *)

Lemma effect_writes_no_LINES_witness :
  exists (out : list (LAYER * LAYER_REFERENCE * layer_element)) (log : list string),
    effect (H := sample_text) default_options 100
      [layer_of [closed_triangle "fill:#000000;"; open_triangle "fill:none;"]]
      = Ok (out, log) /\
    Forall (fun entry => Forall not_LINES (children entry.1.2)) out.
Proof.
  assert (E : exists out log,
             effect (H := sample_text) default_options 100
               [layer_of [closed_triangle "fill:#000000;"; open_triangle "fill:none;"]]
             = Ok (out, log))
    by (vm_compute; eexists _, _; reflexivity).
  destruct E as (out & log & E). exists out, log. split; [exact E|].
  exact (@effect_writes_no_LINES sample_text default_options 100 _ out log E).
Defined.

